(** * The SLURM adapter of COSMOS (cosmos/job/drm/drm_slurm.py)

    A shallow embedding of [DRM_SLURM] and of the module functions
    [_qacct_raw] and [_qstat_all], with the statements that the
    adapter's specification makes about them.

    - Python byte strings are [string]; dictionaries are [gmap string _];
      job identifiers are strings, as [submit_job] returns them; the
      readings of the clock are rationals.
    - External commands, the clock and the file system are the outside
      world: a [World] answers every command that is launched and every
      clock reading, and the program threads a [State] that records what
      it did (commands launched, sleeps, log lines, files removed).
    - Python exceptions are the constructors of [exn]; a computation
      yields [Ok a] or [Raise e] together with the final state.
    - The generator [filter_is_done] is run to its end; its result is
      the list of the pairs it yields. *)

From Stdlib Require Import ZArith QArith Ascii String.
From stdpp Require Import gmap strings list.

Local Open Scope Z_scope.

(** ** Python string primitives *)

Module Str.

(** [str.isspace] on one byte: the six ASCII white space characters
    that [str.strip], [str.split] and the regular expression [\s]
    recognise on Python 2 byte strings. *)
Definition isspace (c : ascii) : bool :=
  let n := nat_of_ascii c in
  ((9 <=? n)%nat && (n <=? 13)%nat) || (n =? 32)%nat.

(** The regular expression class [\d] on byte strings. *)
Definition isdigit (c : ascii) : bool :=
  let n := nat_of_ascii c in
  (48 <=? n)%nat && (n <=? 57)%nat.

Definition is_empty (s : string) : bool :=
  match s with EmptyString => true | String _ _ => false end.

(** Truth value of a string: [if s:]. *)
Definition truthy (s : string) : bool := negb (is_empty s).

Fixpoint lstrip (s : string) : string :=
  match s with
  | EmptyString => EmptyString
  | String c s' => if isspace c then lstrip s' else s
  end.

Fixpoint rstrip (s : string) : string :=
  match s with
  | EmptyString => EmptyString
  | String c s' =>
      let r := rstrip s' in
      if isspace c && is_empty r then EmptyString else String c r
  end.

(** [s.strip()] *)
Definition strip (s : string) : string := rstrip (lstrip s).

Definition push_word (w : string) (ws : list string) : list string :=
  if is_empty w then ws else w :: ws.

(** [split_go s] is the word that starts at the head of [s] (empty when
    [s] starts with white space) and the words after it. *)
Fixpoint split_go (s : string) : string * list string :=
  match s with
  | EmptyString => (EmptyString, [])
  | String c s' =>
      let '(w, ws) := split_go s' in
      if isspace c then (EmptyString, push_word w ws) else (String c w, ws)
  end.

(** [s.split()]: the maximal runs of characters that are not white
    space. *)
Definition split (s : string) : list string :=
  let '(w, ws) := split_go s in push_word w ws.

(** [split_on_go sep s]: the piece before the first [sep], and the
    pieces after it. *)
Fixpoint split_on_go (sep : ascii) (s : string) : string * list string :=
  match s with
  | EmptyString => (EmptyString, [])
  | String c s' =>
      let '(w, ws) := split_on_go sep s' in
      if Ascii.eqb c sep then (EmptyString, w :: ws) else (String c w, ws)
  end.

(** [s.split(sep)] for a one-character separator: never empty. *)
Definition split_on (sep : ascii) (s : string) : string * list string :=
  split_on_go sep s.

(** [re.split("\s+", s)]: the pieces between maximal runs of white
    space, the empty pieces at both ends included.  [in_sep] tells
    that the previous character was white space. *)
Fixpoint re_split_ws_go (in_sep : bool) (s : string) : string * list string :=
  match s with
  | EmptyString => (EmptyString, [])
  | String c s' =>
      if isspace c then
        if in_sep then re_split_ws_go true s'
        else (EmptyString,
              let '(w, ws) := re_split_ws_go true s' in w :: ws)
      else
        let '(w, ws) := re_split_ws_go false s' in (String c w, ws)
  end.

Definition re_split_ws (s : string) : string * list string :=
  re_split_ws_go false s.

(** [s.find(c)] for a character [c]: the first index, or [-1]. *)
Fixpoint find (c : ascii) (s : string) : Z :=
  match s with
  | EmptyString => -1
  | String a s' =>
      if Ascii.eqb a c then 0
      else let r := find c s' in if r =? -1 then -1 else r + 1
  end.

(** [s[:n]] and [s[n:]] for [0 <= n]. *)
Fixpoint take (n : nat) (s : string) : string :=
  match n, s with
  | S n', String c s' => String c (take n' s')
  | _, _ => EmptyString
  end.

Fixpoint drop (n : nat) (s : string) : string :=
  match n, s with
  | S n', String _ s' => drop n' s'
  | _, _ => s
  end.

Fixpoint startswith (p s : string) : bool :=
  match p, s with
  | EmptyString, _ => true
  | String a p', String b s' => Ascii.eqb a b && startswith p' s'
  | String _ _, EmptyString => false
  end.

(** [p in s] on strings: [p] occurs in [s] as a contiguous piece. *)
Fixpoint contains (p s : string) : bool :=
  startswith p s ||
  match s with
  | EmptyString => false
  | String _ s' => contains p s'
  end.

(** [sep.join(l)] *)
Fixpoint join (sep : string) (l : list string) : string :=
  match l with
  | [] => EmptyString
  | [x] => x
  | x :: l' => x +:+ sep +:+ join sep l'
  end.

(** The longest prefix of digits, as the greedy [\d+] takes it. *)
Fixpoint digits_prefix (s : string) : string :=
  match s with
  | EmptyString => EmptyString
  | String c s' => if isdigit c then String c (digits_prefix s') else EmptyString
  end.

End Str.

(** ** Tasks, the outside world and the effects of the adapter *)

(** The view of a task that the adapter reads.  [drm_jobID] is the
    identifier that [submit_job] returned, a string. *)
Record Task := {
  drm_jobID : string;
  output_stdout_path : string;
  output_stderr_path : string;
  drm_native_specification : option string;
  output_command_script_path : string
}.

(** [unicode(x)] on a job identifier, which is a string already. *)
Definition unicode (s : string) : string := s.

(** A command line handed to [subprocess]: one shell line
    ([shell=True]) or an argument vector. *)
Inductive command :=
| Shell (line : string)
| Exec (argv : list string).

Record completed := {
  returncode : Z;
  stdout : string;
  stderr : string
}.

(** What happens to a command: it ran to completion, or it could not be
    started at all ([OSError]). *)
Inductive launch :=
| Ran (p : completed)
| NotLaunched.

(** The outside world: the outcome of the [n]-th command that the
    program launches, and the [n]-th reading of [time.time()]. *)
Record World := {
  spawn : nat → command → launch;
  time_time : nat → Q
}.

Inductive level := ERROR | INFO | WARN.

(** Arguments of a log line; the line is kept as its format string and
    its arguments. *)
Inductive fmt_arg :=
| AStr (s : string)
| AInt (z : Z)
| ATask (t : Task)
| ADict (d : gmap string string)
| AFmt (fmt : string) (z : Z).

Inductive event :=
| EvSpawn (c : command)
| EvTime
| EvSleep (sec : Z)
| EvLog (lvl : level) (fmt : string) (args : list fmt_arg)
| EvUnlink (path : string).

(** What the program did so far (oldest first), and the files that
    exist. *)
Record State := {
  trace : list event;
  files : gset string
}.

Definition commands (tr : list event) : list command :=
  omap (λ e, match e with EvSpawn c => Some c | _ => None end) tr.

Definition clock_reads (tr : list event) : nat :=
  length (omap (λ e, match e with EvTime => Some tt | _ => None end) tr).

Definition sleeps (tr : list event) : list Z :=
  omap (λ e, match e with EvSleep n => Some n | _ => None end) tr.

Inductive exn :=
| CalledProcessError (rc : Z) (output : string)
| OSError
| AttributeError
| KeyError (key : string)
| ZeroDivisionError
| UnboundLocalError (name : string)
| NotImplementedError
(** [ValueError('No valid `scontrol show jobid -d -o %s` output after %d
    tries and %d sec' % (jobid, tries, sec))] *)
| ValueError (jobid : string) (tries : Z) (sec : Z)
(** [EnvironmentError('%s with drm_jobID=%s has unparseable ... output:\n%s\n
    Could not find "=" in "%s"' % (task, jobid, raw, kv))] *)
| EnvironmentError (task : Task) (jobid : string) (raw : string) (kv : string).

Inductive result (A : Type) :=
| Ok (a : A)
| Raise (e : exn).
Arguments Ok {A} a.
Arguments Raise {A} e.

Definition M (A : Type) : Type := State → result A * State.

#[global] Instance M_ret : MRet M := λ A a s, (Ok a, s).
#[global] Instance M_bind : MBind M := λ A B f m s,
  match m s with
  | (Ok a, s') => f a s'
  | (Raise e, s') => (Raise e, s')
  end.

Definition raise {A} (e : exn) : M A := λ s, (Raise e, s).

Definition lift {A} (r : result A) : M A := λ s, (r, s).

Definition emit (e : event) : M unit :=
  λ s, (Ok tt, {| trace := trace s ++ [e]; files := files s |}).

(** [for x in l: body(x)] *)
Fixpoint for_ {A} (l : list A) (body : A → M unit) : M unit :=
  match l with
  | [] => mret tt
  | x :: l' => body x ;; for_ l' body
  end.

(** [%d] applied to a float: the integer part. *)
Definition fmt_d (x : Q) : Z := Z.quot (Qnum x) (Z.pos (Qden x)).

(** [xrange(n)] *)
Definition xrange (n : Z) : list Z := Z.of_nat <$> seq 0 (Z.to_nat n).

(** [a / b] on Python 2 integers: floor division. *)
Definition py_div (a b : Z) : M Z :=
  if b =? 0 then raise ZeroDivisionError else mret (a / b).

(** [dict(pairs)]: a later pair replaces an earlier one with the same
    key. *)
Definition dict (pairs : list (string * string)) : gmap string string :=
  foldl (λ d kv, <[kv.1 := kv.2]> d) ∅ pairs.

(** [more_itertools.grouper(n, l)], which zips [n] references to one
    iterator over [l] with [izip_longest]: consecutive blocks of [n]
    elements, the last one filled up with [None]. *)
Fixpoint grouper_go {A} (fuel n : nat) (l : list A) : list (list (option A)) :=
  match fuel with
  | O => []
  | S fuel' =>
      match l with
      | [] => []
      | _ :: _ =>
          let block := take n l in
          ((Some <$> block) ++ replicate (n - length block) None)
            :: grouper_go fuel' n (drop n l)
      end
  end.

Definition grouper {A} (n : nat) (l : list A) : list (list (option A)) :=
  match n with
  | O => []
  | S _ => grouper_go (length l) n l
  end.

Section Adapter.

Variable W : World.

(** Launch a command: the world decides its outcome. *)
Definition run (c : command) : M launch :=
  λ s, (Ok (spawn W (length (commands (trace s))) c),
        {| trace := trace s ++ [EvSpawn c]; files := files s |}).

(** [time.time()] *)
Definition now : M Q :=
  λ s, (Ok (time_time W (clock_reads (trace s))),
        {| trace := trace s ++ [EvTime]; files := files s |}).

(** What [subprocess.check_output] makes of the outcome: the standard
    output of a command that exits with 0, [CalledProcessError]
    otherwise, [OSError] when it did not start. *)
Definition check_output_of (l : launch) : result string :=
  match l with
  | NotLaunched => Raise OSError
  | Ran p =>
      if returncode p =? 0 then Ok (stdout p)
      else Raise (CalledProcessError (returncode p) (stdout p))
  end.

(** What the command wrote to the file given as [stderr=]. *)
Definition stderr_of (l : launch) : string :=
  match l with
  | NotLaunched => EmptyString
  | Ran p => stderr p
  end.

Definition check_output (c : command) : M string :=
  l ← run c; lift (check_output_of l).

(** [subprocess.call]: the exit status, whatever it is. *)
Definition call (c : command) : M Z :=
  l ← run c;
  match l with
  | NotLaunched => raise OSError
  | Ran p => mret (returncode p)
  end.

(** Modelled from the spec: [sleep_through_signals] of
    cosmos/util/signal_handlers.py is not under src/; the
    specification requires that the sleep runs to completion, so it
    is one sleep of the full length. *)
Definition sleep_through_signals (timeout : Z) : M unit :=
  emit (EvSleep timeout).

Definition log (lvl : level) (fmt : string) (args : list fmt_arg) : M unit :=
  emit (EvLog lvl fmt args).

Definition path_exists (p : string) : M bool :=
  λ s, (Ok (bool_decide (p ∈ files s)), s).

(** [os.unlink(p)] of an existing file. *)
Definition unlink (p : string) : M unit :=
  λ s, (Ok tt, {| trace := trace s ++ [EvUnlink p]; files := files s ∖ {[p]} |}).

(** *** [_qstat_all] *)

Definition squeue : command := Exec ["squeue"].

(** The loop body of [_qstat_all]: one row of the listing. *)
Definition qstat_row (keys : list string)
    (bjobs : gmap string (gmap string string)) (l : string)
    : gmap string (gmap string string) :=
  let '(item0, items) := Str.re_split_ws (Str.strip l) in
  <[item0 := dict (zip keys (item0 :: items))]> bjobs.

Definition _qstat_all : M (gmap string (gmap string string)) :=
  l ← run squeue;
  match check_output_of l with
  | Raise (CalledProcessError _ _) => mret ∅
  | Raise OSError => mret ∅
  | Raise e => raise e
  | Ok out =>
      let '(line0, lines) := Str.split_on "010" (Str.strip out) in
      let '(key0, keys) := Str.re_split_ws (Str.strip line0) in
      mret (foldl (qstat_row (key0 :: keys)) ∅ lines)
  end.

(** *** [_qacct_raw] *)

Definition scontrol (task : Task) : command :=
  Exec ["scontrol"; "show"; "jobid"; "-d"; "-o"; unicode (drm_jobID task)].

Definition invalid_job_id : string :=
  "slurm_load_jobs error: Invalid job id specified".

Definition scontrol_fmt : string := "%s Slurm (scontrol show jobid -d -o %s)".

(** How one pass through the body of the retry loop ends, up to the
    end of the [with] block. *)
Inductive attempt_end :=
| Break (qacct_stdout_str : string)
| Return (d : gmap string string)
| Failed.

(** Lines 118 to 133: the command failed or printed nothing.  (The
    source puts the last two [%s] between double quotes.) *)
Definition qacct_failed (task : Task) (qacct_stdout_str : string)
    (qacct_returncode : Z) (l : launch) : M attempt_end :=
  let qacct_stderr_str := Str.strip (stderr_of l) in
  if decide (invalid_job_id = qacct_stderr_str) then
    mret (Return {[ "JobId" := drm_jobID task ]})
  else
    log ERROR (scontrol_fmt +:+ " returned error code %d")
        [ATask task; AStr (drm_jobID task); AInt qacct_returncode] ;;
    (if Str.truthy qacct_stdout_str || Str.truthy qacct_stderr_str then
       log ERROR (scontrol_fmt +:+ " printed the following")
           [ATask task; AStr (drm_jobID task)] ;;
       (if Str.truthy qacct_stdout_str
        then log ERROR "stdout: %s" [AStr qacct_stdout_str]
        else mret tt) ;;
       (if Str.truthy qacct_stderr_str
        then log ERROR "stderr: %s" [AStr qacct_stderr_str]
        else mret tt)
     else mret tt) ;;
    mret Failed.

(** Lines 107 to 133: one run of the detailed query. *)
Definition qacct_attempt (task : Task) : M attempt_end :=
  l ← run (scontrol task);
  match check_output_of l with
  | Ok qacct_stdout_str =>
      if Str.truthy (Str.strip qacct_stdout_str)
      then mret (Break qacct_stdout_str)
      else qacct_failed task qacct_stdout_str 0 l
  | Raise (CalledProcessError rc output) =>
      qacct_failed task (Str.strip output) rc l
  | Raise e => raise e
  end.

(** Lines 135 to 141: after a failed attempt. *)
Definition qacct_between (task : Task) (quantum num_retries : Z)
    (start : Q) (i : Z) : M unit :=
  (if 0 <? i then
     t ← now;
     log INFO
       (scontrol_fmt +:+ " attempt %d failed %d sec after first attempt%s")
       [ATask task; AStr (drm_jobID task); AInt (i + 1);
        AInt (fmt_d (Qminus t start));
        if i + 1 <? num_retries
        then AFmt ". Will recheck job status after %d sec" quantum
        else AStr ""]
   else mret tt) ;;
  (if i + 1 <? num_retries
   then sleep_through_signals quantum
   else mret tt).

(** How the [for] loop ends: by [break], by [return], or by running
    out of indices, with the value that [i] has then ([None] when it
    was never assigned). *)
Inductive loop_end :=
| Broke (qacct_stdout_str : string)
| Returned (d : gmap string string)
| Exhausted (i : option Z).

Fixpoint qacct_loop (task : Task) (quantum num_retries : Z) (start : Q)
    (i_prev : option Z) (indices : list Z) : M loop_end :=
  match indices with
  | [] => mret (Exhausted i_prev)
  | i :: indices' =>
      e ← qacct_attempt task;
      match e with
      | Break out => mret (Broke out)
      | Return d => mret (Returned d)
      | Failed =>
          qacct_between task quantum num_retries start i ;;
          qacct_loop task quantum num_retries start (Some i) indices'
      end
  end.

(** Lines 147 to 163: the key/value loop over the tokens. *)
Fixpoint qacct_parse (task : Task) (qacct_stdout_str : string)
    (acct_dict : gmap string string) (k : option string)
    (kvs : list string) : result (gmap string string) :=
  match kvs with
  | [] => Ok acct_dict
  | kv :: kvs' =>
      let eq_pos := Str.find "=" kv in
      if eq_pos =? -1 then
        match k with
        | Some key =>
            match acct_dict !! key with
            | Some v =>
                qacct_parse task qacct_stdout_str
                  (<[key := v +:+ " " +:+ kv]> acct_dict) k kvs'
            | None => Raise (KeyError key)
            end
        | None =>
            Raise (EnvironmentError task (drm_jobID task) qacct_stdout_str kv)
        end
      else
        let key := Str.take (Z.to_nat eq_pos) kv in
        let v := Str.drop (Z.to_nat (eq_pos + 1)) kv in
        qacct_parse task qacct_stdout_str (<[key := v]> acct_dict) (Some key) kvs'
  end.

Definition _qacct_raw (task : Task) (timeout quantum : Z)
    : M (gmap string string) :=
  start ← now;
  num_retries ← py_div timeout quantum;
  e ← qacct_loop task quantum num_retries start None (xrange num_retries);
  match e with
  | Returned d => mret d
  | Exhausted None => raise (UnboundLocalError "i")
  | Exhausted (Some i) =>
      t ← now;
      raise (ValueError (drm_jobID task) i (fmt_d (Qminus t start)))
  | Broke qacct_stdout_str =>
      lift (qacct_parse task qacct_stdout_str ∅ None
              (Str.split (Str.strip qacct_stdout_str)))
  end.

(** *** [DRM_SLURM] *)

(** [re.search('job (\d+)', s)]: the match at the head of [s], if
    any, and then the leftmost match. *)
Definition match_job_at (s : string) : option string :=
  if Str.startswith "job " s then
    let d := Str.digits_prefix (Str.drop 4 s) in
    if Str.is_empty d then None else Some d
  else None.

Fixpoint re_search_job (s : string) : option string :=
  match match_job_at s with
  | Some d => Some d
  | None =>
      match s with
      | EmptyString => None
      | String _ s' => re_search_job s'
      end
  end.

Definition sbatch (task : Task) : command :=
  let ns := match drm_native_specification task with
            | Some spec => if Str.truthy spec then " " +:+ spec else ""
            | None => ""
            end in
  Shell ("sbatch -o " +:+ output_stdout_path task +:+ " -e " +:+
         output_stderr_path task +:+ " " +:+ ns +:+ " " +:+
         output_command_script_path task).

Definition submit_job (task : Task) : M string :=
  for_ [output_stdout_path task; output_stderr_path task]
    (λ p, b ← path_exists p; if b : bool then unlink p else mret tt) ;;
  out ← check_output (sbatch task);
  match re_search_job out with
  | None => raise AttributeError
  | Some g => mret (unicode g)
  end.

Definition finished_states : list string :=
  ["F"; "BF"; "CA"; "CD"; "NF"; "PR"; "R"; "TO"].

(** The condition of [filter_is_done] (lines 47 to 49); [qjobs] is
    [None] while the name is unbound. *)
Definition is_done (qjobs : option (gmap string (gmap string string)))
    (jid : string) : result bool :=
  match qjobs with
  | None => Raise (UnboundLocalError "qjobs")
  | Some table =>
      match table !! jid with
      | None => Ok true
      | Some row =>
          match row !! "ST" with
          | None => Raise (KeyError "ST")
          | Some st =>
              Ok (existsb (λ finished_state, Str.contains finished_state st)
                    finished_states)
          end
      end
  end.

Definition _get_task_return_data (task : Task) : M (gmap string string) :=
  d ← _qacct_raw task 600 15;
  let job_state := default "COMPLETED" (d !! "JobState") in
  (if decide (job_state ≠ "COMPLETED") then
     log WARN (scontrol_fmt +:+ " reports JobState %s:\n%s")
         [ATask task; AStr (drm_jobID task); AStr job_state; ADict d]
   else mret tt) ;;
  mret d.

(** The pairs that the generator yields, in order, when it is run to
    its end. *)
Fixpoint filter_is_done_loop
    (qjobs : option (gmap string (gmap string string)))
    (tasks : list Task) : M (list (Task * gmap string string)) :=
  match tasks with
  | [] => mret []
  | task :: tasks' =>
      let jid := unicode (drm_jobID task) in
      done ← lift (is_done qjobs jid);
      if done : bool then
        data ← _get_task_return_data task;
        rest ← filter_is_done_loop qjobs tasks';
        mret ((task, data) :: rest)
      else filter_is_done_loop qjobs tasks'
  end.

Definition filter_is_done (tasks : list Task)
    : M (list (Task * gmap string string)) :=
  qjobs ← (if decide (length tasks ≠ 0%nat)
           then (q ← _qstat_all; mret (Some q))
           else mret None);
  filter_is_done_loop qjobs tasks.

Definition drm_statuses (tasks : list Task) : M (gmap string string) :=
  if decide (length tasks ≠ 0%nat) then
    qjobs ← _qstat_all;
    let f task :=
      default "???" (default ∅ (qjobs !! unicode (drm_jobID task)) !! "ST") in
    mret (foldl (λ d task, <[drm_jobID task := f task]> d) ∅ tasks)
  else mret ∅.

Definition kill (task : Task) : M unit := raise NotImplementedError.

Definition scancel (pids : string) : command := Exec ["scancel"; "-Q"; pids].

Definition kill_tasks (tasks : list Task) : M unit :=
  for_ (grouper 50 tasks) (λ group,
    let group := omap id group in
    let pids := Str.join " " ((λ t, unicode (drm_jobID t)) <$> group) in
    _ ← call (scancel pids);
    mret tt).

End Adapter.

(** * Vocabulary of the statements *)

(** ** Runs and traces *)

(** The state after the events [es] were recorded. *)
Definition extend (s : State) (es : list event) : State :=
  {| trace := trace s ++ es; files := files s |}.

(** [runs m s r es]: started in [s], [m] ends with [r] after recording
    the events [es], and leaves the files alone. *)
Definition runs {A} (m : M A) (s : State) (r : result A) (es : list event) : Prop :=
  m s = (r, extend s es).

(** Events of an attempt that launch nothing, read no clock and do
    not sleep. *)
Definition quiet (es : list event) : Prop :=
  commands es = [] ∧ sleeps es = [] ∧ clock_reads es = 0%nat.

(** ** Outcomes of the detailed query *)

(** The detailed query failed or printed nothing: it exited with an
    error status, or its output is empty once trimmed. *)
Definition query_failed (l : launch) : bool :=
  match l with
  | Ran p => negb (returncode p =? 0) || Str.is_empty (Str.strip (stdout p))
  | NotLaunched => false
  end.

(** The query printed something and exited with 0. *)
Definition query_succeeded (l : launch) : option string :=
  match l with
  | Ran p =>
      if (returncode p =? 0) && Str.truthy (Str.strip (stdout p))
      then Some (stdout p) else None
  | NotLaunched => None
  end.

(** What the standard error says once trimmed. *)
Definition forgotten (l : launch) : bool :=
  bool_decide (invalid_job_id = Str.strip (stderr_of l)).

(** An attempt that is neither a success nor the end of the retries. *)
Definition plain_failure (l : launch) : bool :=
  query_failed l && negb (forgotten l).

(** The outcome of one attempt, decided by what the query did. *)
Definition attempt_result (task : Task) (l : launch) : result attempt_end :=
  match l with
  | NotLaunched => Raise OSError
  | Ran _ =>
      match query_succeeded l with
      | Some out => Ok (Break out)
      | None =>
          Ok (if forgotten l
              then Return {[ "JobId" := drm_jobID task ]} else Failed)
      end
  end.

(** The value of [i] after the loop went through [pre]. *)
Definition last_index (i_prev : option Z) (pre : list Z) : option Z :=
  match last pre with
  | Some i => Some i
  | None => i_prev
  end.

(** ** The parser, the job number and the chunks as the specification words them *)

(** The parser as the specification words it: a token with an equals
    sign is cut at the first one and starts an entry; the tokens
    without one that follow are appended to the value of that entry,
    each after one space; the entries are stored in order, a later one
    replacing an earlier one with the same key.  A token without an
    equals sign that no entry precedes is an error. *)
Module ParserSpec.

(** Cut at the first occurrence of [c]. *)
Fixpoint cut (c : ascii) (s : string) : option (string * string) :=
  match s with
  | EmptyString => None
  | String a s' =>
      if Ascii.eqb a c then Some (EmptyString, s')
      else match cut c s' with
           | Some (k, v) => Some (String a k, v)
           | None => None
           end
  end.

(** [v] with the continuation tokens appended. *)
Definition continued (v : string) (conts : list string) : string :=
  foldl (λ acc t, acc +:+ " " +:+ t) v conts.

(** The tokens in front of the first entry, and the entries. *)
Fixpoint entries (toks : list string) : list string * list (string * string) :=
  match toks with
  | [] => ([], [])
  | t :: toks' =>
      let '(conts, es) := entries toks' in
      match cut "=" t with
      | Some (k, v) => ([], (k, continued v conts) :: es)
      | None => (t :: conts, es)
      end
  end.

Definition parse (task : Task) (raw : string) (toks : list string)
    : result (gmap string string) :=
  match entries toks with
  | ([], es) => Ok (dict es)
  | (t :: _, _) => Raise (EnvironmentError task (drm_jobID task) raw t)
  end.

End ParserSpec.

(** A token: not empty, no white space inside. *)
Definition solid (t : string) : Prop :=
  ∀ pre c post, t = pre +:+ String c post → Str.isspace c = false.

Definition word (t : string) : Prop := t ≠ EmptyString ∧ solid t.

(** The job number in the words of the specification: the run of
    digits that follows the first place where the text has the word job,
    a space and a digit. *)
Module SubmitSpec.

Fixpoint all_digits (s : string) : bool :=
  match s with
  | EmptyString => true
  | String c s' => Str.isdigit c && all_digits s'
  end.

Definition starts_with_digit (s : string) : bool :=
  match s with
  | EmptyString => false
  | String c _ => Str.isdigit c
  end.

(** [s] starts with job, a space and the whole run of digits [ds]. *)
Definition number_at (s ds : string) : Prop :=
  ∃ post, s = "job " +:+ ds +:+ post ∧ ds ≠ EmptyString ∧
          all_digits ds = true ∧ starts_with_digit post = false.

Definition number_after (out pre ds : string) : Prop :=
  ∃ rest, out = pre +:+ rest ∧ number_at rest ds.

Definition first_number (out ds : string) : Prop :=
  ∃ pre, number_after out pre ds ∧
         ∀ pre' ds', number_after out pre' ds' →
                     (String.length pre ≤ String.length pre')%nat.

End SubmitSpec.

(** The text that an exception carries in its message or fields. *)
Definition carried_text (e : exn) : list string :=
  match e with
  | CalledProcessError _ output => [output]
  | KeyError key => [key]
  | UnboundLocalError name => [name]
  | ValueError jobid _ _ => [jobid]
  | EnvironmentError _ jobid raw kv => [jobid; raw; kv]
  | OSError | AttributeError | ZeroDivisionError | NotImplementedError => []
  end.

(** [chunks] cuts [l] into consecutive pieces of [n] elements, the last
    one possibly shorter, none of them empty. *)
Definition chunked {A} (n : nat) (l : list A) (chunks : list (list A)) : Prop :=
  concat chunks = l ∧
  Forall (λ c, (0 < length c ≤ n)%nat) chunks ∧
  ∀ i c, chunks !! i = Some c → (S i < length chunks)%nat → length c = n.

(** The sizes of the blocks of [grouper_go], the fillers left out. *)
Fixpoint sizes_go (fuel n len : nat) : list nat :=
  match fuel with
  | O => []
  | S fuel' =>
      match len with
      | O => []
      | S _ => (n `min` len)%nat :: sizes_go fuel' n (len - n)
      end
  end.

(** The group that [kill_tasks] keeps of a block: the tasks, without
    the fillers. *)
Definition kept {A} (group : list (option A)) : list A := omap id group.

(** The argument that one call of scancel gets for a group. *)
Definition pids_of (group : list Task) : string :=
  Str.join " " ((λ t, unicode (drm_jobID t)) <$> group).

(** The status that [drm_statuses] reports for a job identifier. *)
Definition status_of (qjobs : gmap string (gmap string string)) (jid : string)
    : string :=
  match qjobs !! jid with
  | Some row =>
      match row !! "ST" with
      | Some st => st
      | None => "???"
      end
  | None => "???"
  end.

(** ** Sample inputs *)

Module Sample.

Definition task7 : Task :=
  {| drm_jobID := "7";
     output_stdout_path := "out.txt";
     output_stderr_path := "err.txt";
     drm_native_specification := None;
     output_command_script_path := "run.sh" |}.

Definition initial : State := {| trace := []; files := ∅ |}.

(** The clock advances by one second per reading. *)
Definition ticking (n : nat) : Q := inject_Z (Z.of_nat n).

(** Every command exits with status 1 and complains. *)
Definition broken : World :=
  {| spawn := λ _ _, Ran {| returncode := 1; stdout := ""; stderr := "boom" |};
     time_time := ticking |}.

(** The scheduler has forgotten every job. *)
Definition amnesic : World :=
  {| spawn := λ _ _,
       Ran {| returncode := 1; stdout := ""; stderr := invalid_job_id |};
     time_time := ticking |}.

(** Every command succeeds and prints an accounting line. *)
Definition healthy : World :=
  {| spawn := λ _ _,
       Ran {| returncode := 0; stdout := "JobId=7 JobState=COMPLETED";
              stderr := "" |};
     time_time := ticking |}.

(** Two failing commands, then the scheduler has forgotten the job. *)
Definition fading : World :=
  {| spawn := λ n _,
       if (n <? 2)%nat
       then Ran {| returncode := 1; stdout := ""; stderr := "boom" |}
       else Ran {| returncode := 1; stdout := ""; stderr := invalid_job_id |};
     time_time := ticking |}.

(** The scheduler accepts every submission as job 4821. *)
Definition accepting : World :=
  {| spawn := λ _ _,
       Ran {| returncode := 0; stdout := "Submitted batch job 4821"; stderr := "" |};
     time_time := ticking |}.

(** The scheduler accepts the submission and prints the bare number,
    as sbatch does when the native specification asks for parsable
    output. *)
Definition parsable : World :=
  {| spawn := λ _ _, Ran {| returncode := 0; stdout := "4821"; stderr := "" |};
     time_time := ticking |}.

(** The accounting line has a value with a space in it. *)
Definition spaced : World :=
  {| spawn := λ _ _,
       Ran {| returncode := 0; stdout := "A=1 extra B=2"; stderr := "" |};
     time_time := ticking |}.

(** The accounting line starts in the middle of a value. *)
Definition garbled : World :=
  {| spawn := λ _ _,
       Ran {| returncode := 0; stdout := "extra B=2"; stderr := "" |};
     time_time := ticking |}.

(** The listing shows job 7 being configured and job 8 pending. *)
Definition listing : World :=
  {| spawn := λ _ _,
       Ran {| returncode := 0;
              stdout := "JOBID NAME ST" +:+ String "010" "7 build CF" +:+
                        String "010" "8 test PD" +:+ String "010" "";
              stderr := "" |};
     time_time := ticking |}.

(** No command can be started. *)
Definition toolless : World :=
  {| spawn := λ _ _, NotLaunched; time_time := ticking |}.

End Sample.

(** A listing in which job 7 is still being configured. *)
Definition configuring_table : gmap string (gmap string string) :=
  {[ "7" := {[ "JOBID" := "7"; "ST" := "CF" ]} ]}.

(** ** Vocabulary of the further properties *)

(** The key of a token, as the loop of [_qacct_raw] takes it: what
    stands before the first equals sign, if there is one. *)
Definition token_key (kv : string) : option string :=
  if Str.find "=" kv =? -1 then None
  else Some (Str.take (Z.to_nat (Str.find "=" kv)) kv).

(** The first field of a line of the listing, as the loop of
    [_qstat_all] takes it. *)
Definition first_item (l : string) : string :=
  (Str.re_split_ws (Str.strip l)).1.

(** The lines of the listing: the header and the rows. *)
Definition listing_lines (out : string) : string * list string :=
  Str.split_on "010" (Str.strip out).

(** The names of the columns. *)
Definition listing_keys (out : string) : list string :=
  let '(key0, keys) := Str.re_split_ws (Str.strip (listing_lines out).1) in
  key0 :: keys.

(** No white space in the string. *)
Fixpoint spaceless (s : string) : bool :=
  match s with
  | EmptyString => true
  | String c s' => negb (Str.isspace c) && spaceless s'
  end.

(** A token that continues a value: not empty, no white space, no
    equals sign. *)
Definition continuation (t : string) : bool :=
  Str.truthy t && spaceless t && negb (Str.contains "=" t).

(** The listing command could not be started or exited with an
    error status. *)
Definition listing_failed (l : launch) : bool :=
  match l with
  | NotLaunched => true
  | Ran p => negb (returncode p =? 0)
  end.

(** The task passes the test of [filter_is_done] against the table. *)
Definition passes (qjobs : gmap string (gmap string string)) (task : Task) : bool :=
  match is_done (Some qjobs) (unicode (drm_jobID task)) with
  | Ok true => true
  | _ => false
  end.

(** The commands that a poll over [tasks] may launch. *)
Definition poll_command (tasks : list Task) (c : command) : Prop :=
  c = squeue ∨ ∃ task, task ∈ tasks ∧ c = scontrol task.

(** Further worlds. *)
Module Scenario.

(** Two failing queries, then the accounting line. *)
Definition recovering : World :=
  {| spawn := λ n _,
       if (n <? 2)%nat
       then Ran {| returncode := 1; stdout := ""; stderr := "boom" |}
       else Ran {| returncode := 0; stdout := "JobId=7 JobState=COMPLETED";
                   stderr := "" |};
     time_time := Sample.ticking |}.

(** Two failing queries, then the tool is gone. *)
Definition vanishing : World :=
  {| spawn := λ n _,
       if (n <? 2)%nat
       then Ran {| returncode := 1; stdout := ""; stderr := "boom" |}
       else NotLaunched;
     time_time := Sample.ticking |}.

(** The listing has no ST column. *)
Definition columnless : World :=
  {| spawn := λ _ _,
       Ran {| returncode := 0;
              stdout := "JOBID NAME" +:+ String "010" "7 build";
              stderr := "" |};
     time_time := Sample.ticking |}.

(** The submit command is rejected. *)
Definition rejecting : World :=
  {| spawn := λ _ _,
       Ran {| returncode := 1; stdout := ""; stderr := "sbatch: error" |};
     time_time := Sample.ticking |}.

(** A state in which the old output files of [Sample.task7] exist. *)
Definition littered : State :=
  {| trace := []; files := {[ "out.txt"; "err.txt"; "keep.txt" ]} |}.

Definition task8 : Task :=
  {| drm_jobID := "8";
     output_stdout_path := "out8.txt";
     output_stderr_path := "err8.txt";
     drm_native_specification := Some "-p debug";
     output_command_script_path := "run8.sh" |}.

(** squeue is missing; the detailed query works. *)
Definition blind : World :=
  {| spawn := λ _ c,
       match c with
       | Exec ("squeue" :: _) => NotLaunched
       | _ => Ran {| returncode := 0; stdout := "JobState=COMPLETED"; stderr := "" |}
       end;
     time_time := Sample.ticking |}.

(** No command but the submission can be started. *)
Definition submit_only : World :=
  {| spawn := λ _ c,
       match c with
       | Shell _ =>
           Ran {| returncode := 0; stdout := "Submitted batch job 4821"; stderr := "" |}
       | Exec _ => NotLaunched
       end;
     time_time := Sample.ticking |}.

(** squeue lists job 7 as being configured and job 8 as pending; the
    detailed query works. *)
Definition cluster : World :=
  {| spawn := λ _ c,
       match c with
       | Exec ("squeue" :: _) =>
           Ran {| returncode := 0;
                  stdout := "JOBID NAME ST" +:+ String "010" "7 build CF" +:+
                            String "010" "8 test PD";
                  stderr := "" |}
       | _ => Ran {| returncode := 0; stdout := "JobState=COMPLETED"; stderr := "" |}
       end;
     time_time := Sample.ticking |}.

End Scenario.

(** * Properties *)

(** ** Strings *)

Section StrFacts.

Lemma startswith_spec p s :
  Str.startswith p s = true ↔ ∃ post, s = p +:+ post.
Proof.
  revert s. induction p as [|a p IH]; intros s; simpl.
  - split; [eauto | done].
  - destruct s as [|b s].
    + split; [done | intros [post H]; discriminate].
    + rewrite andb_true_iff, Ascii.eqb_eq, IH. split.
      * intros [-> [post ->]]. eauto.
      * intros [post H]. injection H as -> ->. eauto.
Qed.

Lemma contains_spec p s :
  Str.contains p s = true ↔ ∃ pre post, s = pre +:+ p +:+ post.
Proof.
  induction s as [|c s IH].
  - simpl. rewrite orb_false_r, startswith_spec. split.
    + intros [post H]. by exists EmptyString, post.
    + intros [pre [post H]]. destruct pre; [eauto | discriminate].
  - cbn [Str.contains]. rewrite orb_true_iff, startswith_spec, IH. split.
    + intros [[post H] | (pre & post & ->)].
      * by exists EmptyString, post.
      * by exists (String c pre), post.
    + intros [pre [post H]]. destruct pre as [|a pre].
      * left. eauto.
      * right. injection H as -> ->. eauto.
Qed.

Lemma append_nil_l s : EmptyString +:+ s = s.
Proof. done. Qed.

Lemma append_cons c s t : String c s +:+ t = String c (s +:+ t).
Proof. done. Qed.

Lemma append_nil_r s : s +:+ EmptyString = s.
Proof. induction s as [|c s IH]; [done |]. by rewrite append_cons, IH. Qed.

Lemma is_empty_true s : Str.is_empty s = true ↔ s = EmptyString.
Proof. by destruct s. Qed.

Lemma find_ge s c : -1 ≤ Str.find c s.
Proof.
  induction s as [|a s IH]; simpl; [lia |].
  destruct (Ascii.eqb a c); [lia |].
  destruct (Z.eqb_spec (Str.find c s) (-1)); lia.
Qed.

(** [find] returns [-1] exactly on the strings without the
    character. *)
Lemma find_none c s :
  Str.find c s = -1 ↔ ∀ pre post, s ≠ pre +:+ String c post.
Proof.
  induction s as [|a s IH]; simpl.
  - split; [|done]. intros _ [|??] ?; discriminate.
  - destruct (Ascii.eqb_spec a c) as [->|Hne].
    + split; [done |]. intros H. by destruct (H EmptyString s).
    + pose proof (find_ge s c) as Hge.
      destruct (Z.eqb_spec (Str.find c s) (-1)) as [E|E].
      * split; [|done]. intros _ [|b pre] post; simpl.
        { intros [= ? ?]. done. }
        intros [= -> ->]. by eapply IH.
      * split; [lia |]. intros H. exfalso. apply E, IH.
        intros pre post ->. by apply (H (String a pre) post).
Qed.

(** Otherwise it is the position of the first occurrence: the key in
    front of it has none, and the value follows it. *)
Lemma find_split c s :
  Str.find c s ≠ -1 →
  s = Str.take (Z.to_nat (Str.find c s)) s +:+
      String c (Str.drop (Z.to_nat (Str.find c s + 1)) s) ∧
  Str.find c (Str.take (Z.to_nat (Str.find c s)) s) = -1.
Proof.
  induction s as [|a s IH]; simpl; [done |].
  destruct (Ascii.eqb_spec a c) as [->|Hne]; [done |].
  pose proof (find_ge s c).
  destruct (Z.eqb_spec (Str.find c s) (-1)) as [E|E]; [done |].
  intros _. destruct (IH E) as [H1 H2].
  set (n := Z.to_nat (Str.find c s)) in *.
  replace (Z.to_nat (Str.find c s + 1)) with (S n) in * by lia.
  replace (Z.to_nat (Str.find c s + 1 + 1)) with (S (S n)) by lia.
  change (Str.take (S n) (String a s)) with (String a (Str.take n s)).
  change (Str.drop (S (S n)) (String a s)) with (Str.drop (S n) s).
  split.
  - change (String a s = String a (Str.take n s +:+ String c (Str.drop (S n) s))).
    by rewrite <- H1.
  - cbn [Str.find]. destruct (Ascii.eqb_spec a c); [done |]. by rewrite H2.
Qed.

End StrFacts.

(** ** Completion filter *)

(** C1, on the code: job 7 is listed with the status CF (being
    configured), which is none of the eight codes; the filter takes it
    for done all the same, because it looks for the codes inside the
    status and the code F occurs inside CF.  The task is neither absent
    from the table nor tagged with one of the codes. *)
Lemma is_done_not_membership :
  is_done (Some configuring_table) "7" = Ok true ∧
  ¬ (configuring_table !! "7" = None ∨
     ∃ row st, configuring_table !! "7" = Some row ∧
               row !! "ST" = Some st ∧ st ∈ finished_states).
Proof.
  split; [by vm_compute |].
  intros [H | (row & st & Hrow & Hst & Hin)].
  - by vm_compute in H.
  - vm_compute in Hrow. injection Hrow as <-.
    vm_compute in Hst. injection Hst as <-.
    revert Hin. by apply (bool_decide_eq_false_1 _), (eq_refl false).
Qed.

(** What the test computes: a task is taken for done exactly when its
    identifier is not in the table, or one of the eight codes occurs
    inside its ST field.  A task listed as PD is not done, and a task
    listed with one of the eight codes is. *)
Theorem is_done_iff_code_occurs
    (table : gmap string (gmap string string)) (jid : string) :
  (is_done (Some table) jid = Ok true ↔
     table !! jid = None ∨
     ∃ row st code,
       table !! jid = Some row ∧ row !! "ST" = Some st ∧
       code ∈ finished_states ∧ ∃ pre post, st = pre +:+ code +:+ post)
  ∧ (∀ row : gmap string string,
       is_done (Some (<[jid := <["ST" := "PD"]> row]> table)) jid = Ok false)
  ∧ Forall (λ code, ∀ row : gmap string string,
       is_done (Some (<[jid := <["ST" := code]> row]> table)) jid = Ok true)
      finished_states.
Proof.
  split; [|split].
  - unfold is_done. destruct (table !! jid) as [row|] eqn:Hrow; [|naive_solver].
    destruct (row !! "ST") as [st|] eqn:Hst.
    + split.
      * intros H.
        assert (∃ code, In code finished_states ∧ Str.contains code st = true)
          as (code & Hin & Hc) by (apply existsb_exists; congruence).
        right. exists row, st, code.
        split; [done |]. split; [done |]. split; [by apply list_elem_of_In |].
        by apply contains_spec.
      * intros [? | (row' & st' & code & [= <-] & Hst' & Hin & Hc)]; [done |].
        rewrite Hst in Hst'. injection Hst' as <-. f_equal.
        apply existsb_exists. exists code. split; [by apply list_elem_of_In |].
        by apply contains_spec.
    + split; [done |]. intros [? | (row' & st' & ? & [= <-] & Hst' & _)]; [done |].
      by rewrite Hst in Hst'.
  - intros row. unfold is_done. by rewrite lookup_insert_eq, lookup_insert_eq.
  - unfold finished_states. repeat constructor; intros row; unfold is_done;
      by rewrite lookup_insert_eq, lookup_insert_eq.
Qed.

(** The same on a listing as squeue prints it: job 7, which is being
    configured, passes the test; job 8, which is pending, does not. *)
Example is_done_on_listing :
  fst (_qstat_all Sample.listing Sample.initial)
  = Ok {[ "7" := {[ "JOBID" := "7"; "NAME" := "build"; "ST" := "CF" ]};
          "8" := {[ "JOBID" := "8"; "NAME" := "test"; "ST" := "PD" ]} ]} ∧
  is_done (Some {[ "7" := {[ "JOBID" := "7"; "NAME" := "build"; "ST" := "CF" ]};
                   "8" := {[ "JOBID" := "8"; "NAME" := "test"; "ST" := "PD" ]} ]}) "7"
  = Ok true ∧
  is_done (Some {[ "7" := {[ "JOBID" := "7"; "NAME" := "build"; "ST" := "CF" ]};
                   "8" := {[ "JOBID" := "8"; "NAME" := "test"; "ST" := "PD" ]} ]}) "8"
  = Ok false.
Proof. by vm_compute. Qed.

(** The generator goes by this test: a task that fails it is skipped,
    a task that passes it has its accounting data retrieved. *)
Lemma filter_is_done_loop_skips W qjobs task tasks s :
  is_done qjobs (unicode (drm_jobID task)) = Ok false →
  filter_is_done_loop W qjobs (task :: tasks) s = filter_is_done_loop W qjobs tasks s.
Proof. intros H. cbn [filter_is_done_loop]. unfold lift, mbind, M_bind. by rewrite H. Qed.

Lemma filter_is_done_loop_retrieves W qjobs task tasks s :
  is_done qjobs (unicode (drm_jobID task)) = Ok true →
  filter_is_done_loop W qjobs (task :: tasks) s
  = (data ← _get_task_return_data W task;
     rest ← filter_is_done_loop W qjobs tasks;
     mret ((task, data) :: rest)) s.
Proof. intros H. cbn [filter_is_done_loop]. unfold lift, mbind, M_bind. by rewrite H. Qed.

(** ** Running computations *)

Section Runs.

Context {A B : Type}.

Lemma extend_nil s : extend s [] = s.
Proof. destruct s. unfold extend. simpl. by rewrite app_nil_r. Qed.

Lemma extend_app s es1 es2 : extend (extend s es1) es2 = extend s (es1 ++ es2).
Proof. unfold extend. simpl. by rewrite app_assoc. Qed.

Lemma runs_ret (a : A) s : runs (mret a) s (Ok a) [].
Proof. unfold runs. by rewrite extend_nil. Qed.

Lemma runs_lift (r : result A) s : runs (lift r) s r [].
Proof. unfold runs, lift. by rewrite extend_nil. Qed.

Lemma runs_raise e s : runs (raise e : M A) s (Raise e) [].
Proof. unfold runs, raise. by rewrite extend_nil. Qed.

Lemma runs_bind (m : M A) (f : A → M B) s a es1 r es2 :
  runs m s (Ok a) es1 →
  runs (f a) (extend s es1) r es2 →
  runs (m ≫= f) s r (es1 ++ es2).
Proof.
  unfold runs, mbind, M_bind. intros -> ->. by rewrite extend_app.
Qed.

Lemma runs_bind_raise (m : M A) (f : A → M B) s e es :
  runs m s (Raise e) es → runs (m ≫= f) s (Raise e) es.
Proof. unfold runs, mbind, M_bind. by intros ->. Qed.

End Runs.

Lemma runs_emit e s : runs (emit e) s (Ok tt) [e].
Proof. done. Qed.

Lemma runs_run W c s :
  runs (run W c) s (Ok (spawn W (length (commands (trace s))) c)) [EvSpawn c].
Proof. done. Qed.

Lemma runs_now W s :
  runs (now W) s (Ok (time_time W (clock_reads (trace s)))) [EvTime].
Proof. done. Qed.

Lemma commands_app es1 es2 : commands (es1 ++ es2) = commands es1 ++ commands es2.
Proof. apply omap_app. Qed.

Lemma sleeps_app es1 es2 : sleeps (es1 ++ es2) = sleeps es1 ++ sleeps es2.
Proof. apply omap_app. Qed.

Lemma clock_reads_app es1 es2 :
  clock_reads (es1 ++ es2) = (clock_reads es1 + clock_reads es2)%nat.
Proof. unfold clock_reads. by rewrite omap_app, length_app. Qed.

Ltac runs_go :=
  repeat first
    [ apply runs_ret | apply runs_emit | apply runs_run | apply runs_now
    | apply runs_lift | apply runs_raise
    | eapply runs_bind ].

(** ** Accounting retrieval: one attempt *)

Section Attempt.

Variable W : World.
Variable task : Task.

Lemma qacct_failed_runs out rc l s :
  ∃ es, quiet es ∧ (forgotten l = true → es = []) ∧
    runs (qacct_failed task out rc l) s
      (Ok (if forgotten l then Return {[ "JobId" := drm_jobID task ]} else Failed))
      es.
Proof.
  unfold qacct_failed, forgotten, log.
  destruct (decide (invalid_job_id = Str.strip (stderr_of l))) as [E|E].
  - rewrite bool_decide_eq_true_2 by done. exists [].
    split; [done |]. split; [done | apply runs_ret].
  - rewrite bool_decide_eq_false_2 by done.
    destruct (Str.truthy out), (Str.truthy (Str.strip (stderr_of l))); simpl;
      eexists; (split; [|split; [|runs_go]]); done.
Qed.

(** An attempt launches the query once, and nothing else; unless it
    is a plain failure, nothing at all follows the launch. *)
Lemma qacct_attempt_runs s :
  let l := spawn W (length (commands (trace s))) (scontrol task) in
  ∃ es, quiet es ∧ (attempt_result task l ≠ Ok Failed → es = []) ∧
    runs (qacct_attempt W task) s (attempt_result task l)
      (EvSpawn (scontrol task) :: es).
Proof.
  intros l. unfold qacct_attempt, attempt_result.
  assert (Hrun := runs_run W (scontrol task) s). fold l in Hrun.
  destruct l as [p|] eqn:El; simpl.
  - destruct (returncode p =? 0) eqn:Erc; simpl.
    + destruct (Str.truthy (Str.strip (stdout p))) eqn:Eout.
      * exists []. split; [done |]. split; [done |].
        eapply (runs_bind _ _ _ _ [_] _ []); [exact Hrun |]. simpl.
        rewrite Erc, Eout. apply runs_ret.
      * destruct (qacct_failed_runs (stdout p) 0 (Ran p) (extend s [EvSpawn (scontrol task)]))
          as (es & Hq & He & Hes).
        exists es. split; [done |]. split.
        { intros Hne. apply He. by destruct (forgotten (Ran p)). }
        eapply (runs_bind _ _ _ _ [_]); [exact Hrun |]. simpl.
        by rewrite Erc, Eout.
    + destruct (qacct_failed_runs (Str.strip (stdout p)) (returncode p) (Ran p)
                  (extend s [EvSpawn (scontrol task)])) as (es & Hq & He & Hes).
      exists es. split; [done |]. split.
      { intros Hne. apply He. by destruct (forgotten (Ran p)). }
      eapply (runs_bind _ _ _ _ [_]); [exact Hrun |]. simpl.
      by rewrite Erc.
  - exists []. split; [done |]. split; [done |].
    eapply (runs_bind _ _ _ _ [_] _ []); [exact Hrun |]. apply runs_raise.
Qed.

End Attempt.

(** ** Accounting retrieval: the retry loop *)

Lemma bind_ok {A B} (m : M A) (f : A → M B) s a s' :
  m s = (Ok a, s') → (m ≫= f) s = f a s'.
Proof. unfold mbind, M_bind. by intros ->. Qed.

Lemma bind_raise {A B} (m : M A) (f : A → M B) s e s' :
  m s = (Raise e, s') → (m ≫= f) s = (Raise e, s').
Proof. unfold mbind, M_bind. by intros ->. Qed.

Lemma failed_not_succeeded l : query_failed l = true → query_succeeded l = None.
Proof.
  destruct l as [p|]; [|done]. simpl. unfold Str.truthy.
  destruct (returncode p =? 0); [|done]. simpl. by intros ->.
Qed.

Lemma plain_failure_result task l :
  plain_failure l = true → attempt_result task l = Ok Failed.
Proof.
  unfold plain_failure. intros [Hq Hf]%andb_true_iff.
  apply negb_true_iff in Hf. unfold attempt_result.
  rewrite (failed_not_succeeded _ Hq), Hf. by destruct l.
Qed.

Section Loop.

Variable W : World.
Variable task : Task.
Variables quantum num_retries : Z.
Variable start : Q.

Lemma qacct_between_runs (i : Z) s :
  ∃ es,
    commands es = [] ∧
    clock_reads es = (if 0 <? i then 1%nat else 0%nat) ∧
    sleeps es = (if i + 1 <? num_retries then [quantum] else []) ∧
    runs (qacct_between W task quantum num_retries start i) s (Ok tt) es.
Proof.
  unfold qacct_between, sleep_through_signals, log.
  destruct (0 <? i), (i + 1 <? num_retries);
    eexists; (split; [|split; [|split; [|runs_go]]]); done.
Qed.

(** While the attempts fail plainly the loop goes on: after the
    indices [pre] it has launched the query once per index, slept
    after each index but the last one of the budget, and read the
    clock for each index but 0. *)
Lemma qacct_loop_failures (pre : list Z) : ∀ rest i_prev s,
  (∀ j, (j < length pre)%nat →
     plain_failure (spawn W (length (commands (trace s)) + j) (scontrol task)) = true) →
  ∃ es,
    commands es = replicate (length pre) (scontrol task) ∧
    clock_reads es = length (filter (λ i, 0 < i) pre) ∧
    sleeps es = replicate (length (filter (λ i, i + 1 < num_retries) pre)) quantum ∧
    qacct_loop W task quantum num_retries start i_prev (pre ++ rest) s =
    qacct_loop W task quantum num_retries start (last_index i_prev pre) rest
      (extend s es).
Proof.
  induction pre as [|i pre IH]; intros rest i_prev s Hfail.
  - exists []. by rewrite extend_nil.
  - destruct (qacct_attempt_runs W task s) as (es1 & (Hc1 & Hs1 & Ht1) & _ & Hrun1).
    pose proof (Hfail 0%nat ltac:(simpl; lia)) as H0.
    rewrite Nat.add_0_r in H0.
    rewrite (plain_failure_result task _ H0) in Hrun1.
    destruct (qacct_between_runs i (extend s (EvSpawn (scontrol task) :: es1)))
      as (es2 & Hc2 & Ht2 & Hs2 & Hrun2).
    destruct (IH rest (Some i)
                (extend (extend s (EvSpawn (scontrol task) :: es1)) es2))
      as (es3 & Hc3 & Ht3 & Hs3 & Hrun3).
    { intros j Hj. simpl.
      rewrite !commands_app, !length_app. simpl. rewrite Hc1, Hc2. simpl.
      replace (length (commands (trace s)) + 1 + 0 + j)%nat
        with (length (commands (trace s)) + S j)%nat by lia.
      apply Hfail. simpl. lia. }
    exists ((EvSpawn (scontrol task) :: es1) ++ es2 ++ es3).
    split; [|split; [|split]].
    + rewrite !commands_app. simpl. by rewrite Hc1, Hc2, Hc3.
    + rewrite !clock_reads_app. change (clock_reads (EvSpawn (scontrol task) :: es1))
        with (clock_reads es1). rewrite Ht1, Ht2, Ht3.
      rewrite filter_cons. destruct (decide (0 < i)) as [Hi|Hi].
      * apply Z.ltb_lt in Hi as ->. done.
      * apply Z.ltb_nlt in Hi as ->. done.
    + rewrite !sleeps_app. change (sleeps (EvSpawn (scontrol task) :: es1))
        with (sleeps es1). rewrite Hs1, Hs2, Hs3.
      rewrite filter_cons. destruct (decide (i + 1 < num_retries)) as [Hi|Hi].
      * apply Z.ltb_lt in Hi as ->. done.
      * apply Z.ltb_nlt in Hi as ->. done.
    + change ((i :: pre) ++ rest) with (i :: (pre ++ rest)).
      cbn [qacct_loop].
      rewrite (bind_ok _ _ _ _ _ Hrun1).
      rewrite (bind_ok _ _ _ _ _ Hrun2).
      rewrite Hrun3, !extend_app.
      replace (last_index i_prev (i :: pre)) with (last_index (Some i) pre); [done |].
      unfold last_index. rewrite last_cons. by destruct (last pre).
Qed.

End Loop.

(** ** The indices of the retry loop *)

Section Xrange.

Lemma xrange_nat k : xrange (Z.of_nat k) = Z.of_nat <$> seq 0 k.
Proof. unfold xrange. by rewrite Nat2Z.id. Qed.

Lemma xrange_length n : length (xrange n) = Z.to_nat n.
Proof. unfold xrange. by rewrite length_fmap, length_seq. Qed.

Lemma xrange_nonpos n : n ≤ 0 → xrange n = [].
Proof. intros H. unfold xrange. by replace (Z.to_nat n) with 0%nat by lia. Qed.

Lemma xrange_snoc k : xrange (Z.of_nat (S k)) = xrange (Z.of_nat k) ++ [Z.of_nat k].
Proof. rewrite !xrange_nat, seq_S. by rewrite fmap_app. Qed.

(** The first [j] indices, the index [j], and the later ones. *)
Lemma xrange_split n j :
  (j < Z.to_nat n)%nat →
  ∃ rest, xrange n = xrange (Z.of_nat j) ++ Z.of_nat j :: rest.
Proof.
  intros Hj. rewrite xrange_nat. unfold xrange.
  replace (Z.to_nat n) with (j + S (Z.to_nat n - S j))%nat by lia.
  rewrite seq_app, fmap_app. simpl. eauto.
Qed.

Lemma filter_all {A} (P : A → Prop) `{∀ x, Decision (P x)} l :
  Forall P l → filter P l = l.
Proof.
  induction 1 as [|x l Hx _ IH]; [done |].
  by rewrite filter_cons_True, IH.
Qed.

Lemma xrange_count_pos k :
  length (filter (λ i, 0 < i) (xrange (Z.of_nat (S k)))) = k.
Proof.
  rewrite xrange_nat. cbn [seq fmap list_fmap].
  rewrite filter_cons_False by lia. rewrite filter_all.
  - by rewrite length_fmap, length_seq.
  - apply Forall_fmap, Forall_seq. intros j Hj. simpl. lia.
Qed.

Lemma xrange_count_before_last k :
  length (filter (λ i, i + 1 < Z.of_nat (S k)) (xrange (Z.of_nat (S k)))) = k.
Proof.
  rewrite xrange_snoc, filter_app, filter_cons_False, filter_nil by lia.
  rewrite app_nil_r, filter_all.
  - by rewrite xrange_length, Nat2Z.id.
  - rewrite xrange_nat. apply Forall_fmap, Forall_seq. intros j Hj. simpl. lia.
Qed.

Lemma xrange_last k : last (xrange (Z.of_nat (S k))) = Some (Z.of_nat k).
Proof. by rewrite xrange_snoc, last_snoc. Qed.

Lemma positive_succ n : 1 ≤ n → ∃ k, n = Z.of_nat (S k).
Proof. intros Hn. exists (Z.to_nat n - 1)%nat. lia. Qed.

Lemma xrange_count_pos' n :
  1 ≤ n → length (filter (λ i, 0 < i) (xrange n)) = (Z.to_nat n - 1)%nat.
Proof. intros [k ->]%positive_succ. rewrite xrange_count_pos. lia. Qed.

Lemma xrange_count_before_last' n :
  1 ≤ n → length (filter (λ i, i + 1 < n) (xrange n)) = (Z.to_nat n - 1)%nat.
Proof. intros [k ->]%positive_succ. rewrite xrange_count_before_last. lia. Qed.

Lemma xrange_last' n : 1 ≤ n → last (xrange n) = Some (n - 1).
Proof. intros [k ->]%positive_succ. rewrite xrange_last. f_equal. lia. Qed.

End Xrange.

(** ** Accounting retrieval: [_qacct_raw] *)

Lemma runs_det {A} (m : M A) s r1 es1 r2 es2 :
  runs m s r1 es1 → runs m s r2 es2 → r1 = r2 ∧ es1 = es2.
Proof.
  unfold runs, extend. intros -> [= -> H]. split; [done |].
  by apply app_inv_head in H.
Qed.

Section Retrieval.

Variable W : World.
Variable task : Task.

(** Whatever the world does, the loop launches the query at most once
    per index. *)
Lemma qacct_loop_bound quantum num_retries start indices : ∀ i_prev s,
  ∃ r es k,
    runs (qacct_loop W task quantum num_retries start i_prev indices) s r es ∧
    commands es = replicate k (scontrol task) ∧ (k ≤ length indices)%nat.
Proof.
  induction indices as [|i indices IH]; intros i_prev s.
  - exists (Ok (Exhausted i_prev)), [], 0%nat. split; [apply runs_ret | done].
  - destruct (qacct_attempt_runs W task s) as (es1 & (Hc1 & _) & _ & Hrun1).
    cbn [qacct_loop].
    destruct (attempt_result task _) as [[out|d|]|e].
    + exists (Ok (Broke out)), ((EvSpawn (scontrol task) :: es1) ++ []), 1%nat.
      split; [eapply runs_bind; [exact Hrun1 | apply runs_ret] |].
      rewrite app_nil_r. simpl. rewrite Hc1. split; [done | lia].
    + exists (Ok (Returned d)), ((EvSpawn (scontrol task) :: es1) ++ []), 1%nat.
      split; [eapply runs_bind; [exact Hrun1 | apply runs_ret] |].
      rewrite app_nil_r. simpl. rewrite Hc1. split; [done | lia].
    + destruct (qacct_between_runs W task quantum num_retries start i
                  (extend s (EvSpawn (scontrol task) :: es1)))
        as (es2 & Hc2 & _ & _ & Hrun2).
      destruct (IH (Some i) (extend (extend s (EvSpawn (scontrol task) :: es1)) es2))
        as (r & es3 & k & Hrun3 & Hc3 & Hk).
      exists r, ((EvSpawn (scontrol task) :: es1) ++ es2 ++ es3), (S k).
      split; [|split].
      * eapply runs_bind; [exact Hrun1 |]. eapply runs_bind; [exact Hrun2 | exact Hrun3].
      * rewrite !commands_app. simpl. by rewrite Hc1, Hc2, Hc3.
      * simpl. lia.
    + exists (Raise e), (EvSpawn (scontrol task) :: es1), 1%nat.
      split; [by apply runs_bind_raise |].
      simpl. rewrite Hc1. split; [done | lia].
Qed.

(** After plain failures on the indices [pre], the loop is where it
    would be had it started at the rest. *)
Lemma qacct_loop_resume quantum num_retries start pre rest i_prev s :
  (∀ j, (j < length pre)%nat →
     plain_failure (spawn W (length (commands (trace s)) + j) (scontrol task)) = true) →
  ∃ es,
    commands es = replicate (length pre) (scontrol task) ∧
    clock_reads es = length (filter (λ i, 0 < i) pre) ∧
    sleeps es = replicate (length (filter (λ i, i + 1 < num_retries) pre)) quantum ∧
    ∀ r es',
      runs (qacct_loop W task quantum num_retries start (last_index i_prev pre) rest)
        (extend s es) r es' →
      runs (qacct_loop W task quantum num_retries start i_prev (pre ++ rest))
        s r (es ++ es').
Proof.
  intros Hfail.
  destruct (qacct_loop_failures W task quantum num_retries start pre rest i_prev s Hfail)
    as (es & Hc & Ht & Hs & Heq).
  exists es. repeat (split; [done |]).
  intros r es'. unfold runs. rewrite Heq. intros ->. by rewrite extend_app.
Qed.

(** What follows the loop launches nothing. *)
Lemma qacct_after_loop start (e : loop_end) s :
  ∃ r es,
    commands es = [] ∧ sleeps es = [] ∧
    runs (match e with
          | Returned d => mret d
          | Exhausted None => raise (UnboundLocalError "i")
          | Exhausted (Some i) =>
              t ← now W;
              raise (ValueError (drm_jobID task) i (fmt_d (Qminus t start)))
          | Broke qacct_stdout_str =>
              lift (qacct_parse task qacct_stdout_str ∅ None
                      (Str.split (Str.strip qacct_stdout_str)))
          end) s r es.
Proof.
  destruct e as [out|d|[i|]].
  - eexists _, []. split; [done |]. split; [done | apply runs_lift].
  - eexists _, []. split; [done |]. split; [done | apply runs_ret].
  - eexists _, _. split; [|split; [|runs_go]]; done.
  - eexists _, []. split; [done |]. split; [done | apply runs_raise].
Qed.

End Retrieval.

Section RetrievalClaims.

Variable W : World.
Variable task : Task.

(** C2, amended: with a positive timeout and quantum, the query is
    launched at most timeout / quantum times, rounded down, and as
    often as that when every attempt fails plainly; there is no
    minimum of one, so with a timeout below the quantum no attempt is
    made and the retrieval fails. *)
Theorem qacct_raw_attempts_bound (timeout quantum : Z) (s : State) :
  0 < timeout → 0 < quantum →
  ∃ r es k,
    runs (_qacct_raw W task timeout quantum) s r es ∧
    commands es = replicate k (scontrol task) ∧
    Z.of_nat k ≤ timeout / quantum ∧
    ((∀ j, (j < Z.to_nat (timeout / quantum))%nat →
        plain_failure (spawn W (length (commands (trace s)) + j) (scontrol task))
        = true) →
     Z.of_nat k = timeout / quantum) ∧
    (timeout < quantum → k = 0%nat ∧ ∃ e, r = Raise e).
Proof.
  intros Ht Hq.
  pose proof (Z.div_pos timeout quantum ltac:(lia) Hq) as Hn.
  set (n := timeout / quantum) in *.
  set (start := time_time W (clock_reads (trace s))).
  destruct (qacct_loop_bound W task quantum n start (xrange n) None (extend s [EvTime]))
    as (r1 & es1 & k & Hrun1 & Hc1 & Hk).
  rewrite xrange_length in Hk.
  assert (∃ r es2, commands es2 = [] ∧
            runs (_qacct_raw W task timeout quantum) s r ([EvTime] ++ [] ++ es1 ++ es2) ∧
            (n = 0 → ∃ e, r = Raise e))
    as (r & es2 & Hc2 & Hrun & Hzero).
  { destruct r1 as [e1|e1].
    - destruct (qacct_after_loop W task start e1 (extend (extend s [EvTime]) es1))
        as (r & es2 & Hc2 & _ & Hrun2).
      exists r, es2. split; [done |]. split.
      + unfold _qacct_raw. eapply runs_bind; [apply runs_now |].
        eapply runs_bind.
        { unfold py_div. destruct (Z.eqb_spec quantum 0); [lia | apply runs_ret]. }
        rewrite extend_nil. fold n. eapply runs_bind; [exact Hrun1 | exact Hrun2].
      + intros Hn0. rewrite Hn0, xrange_nonpos in Hrun1 by lia.
        destruct (runs_det _ _ _ _ _ _ Hrun1 (runs_ret _ _)) as [[= ->] ->].
        destruct (runs_det _ _ _ _ _ _ Hrun2 (runs_raise _ _)) as [-> _]. eauto.
    - exists (Raise e1), []. split; [done |]. split.
      + unfold _qacct_raw. eapply runs_bind; [apply runs_now |].
        eapply runs_bind.
        { unfold py_div. destruct (Z.eqb_spec quantum 0); [lia | apply runs_ret]. }
        rewrite extend_nil, app_nil_r. fold n. by apply runs_bind_raise.
      + eauto. }
  exists r, ([EvTime] ++ [] ++ es1 ++ es2), k.
  split; [done |]. split; [|split; [lia |split]].
  - rewrite !commands_app. simpl. by rewrite Hc1, Hc2, app_nil_r.
  - intros Hall.
    destruct (qacct_loop_resume W task quantum n start (xrange n) [] None
                (extend s [EvTime])) as (es & Hc & _ & _ & Hres).
    { intros j Hj. rewrite xrange_length in Hj. simpl.
      rewrite commands_app, length_app. simpl. rewrite Nat.add_0_r. by apply Hall. }
    specialize (Hres _ _ (runs_ret _ _)). rewrite !app_nil_r in Hres.
    destruct (runs_det _ _ _ _ _ _ Hrun1 Hres) as [_ ->].
    rewrite Hc, xrange_length in Hc1.
    apply (f_equal length) in Hc1. rewrite !length_replicate in Hc1. lia.
  - intros Hlt. assert (n = 0) as Hn0 by (by apply Z.div_small; lia).
    split; [lia | by apply Hzero].
Qed.

Lemma qacct_raw_enter (timeout quantum : Z) (s : State) r es :
  quantum ≠ 0 →
  (let start := time_time W (clock_reads (trace s)) in
   let n := timeout / quantum in
   ∃ e es1 es2,
     es = [EvTime] ++ es1 ++ es2 ∧
     runs (qacct_loop W task quantum n start None (xrange n))
       (extend s [EvTime]) (Ok e) es1 ∧
     runs (match e with
           | Returned d => mret d
           | Exhausted None => raise (UnboundLocalError "i")
           | Exhausted (Some i) =>
               t ← now W;
               raise (ValueError (drm_jobID task) i (fmt_d (Qminus t start)))
           | Broke qacct_stdout_str =>
               lift (qacct_parse task qacct_stdout_str ∅ None
                       (Str.split (Str.strip qacct_stdout_str)))
           end) (extend (extend s [EvTime]) es1) r es2) →
  runs (_qacct_raw W task timeout quantum) s r es.
Proof.
  intros Hq (e & es1 & es2 & -> & Hloop & Hrest).
  unfold _qacct_raw. eapply runs_bind; [apply runs_now |].
  eapply (runs_bind _ _ _ _ []).
  { unfold py_div. destruct (Z.eqb_spec quantum 0); [done | apply runs_ret]. }
  rewrite extend_nil. eapply runs_bind; [exact Hloop | exact Hrest].
Qed.

Lemma strip_invalid_job_id : Str.strip invalid_job_id = invalid_job_id.
Proof. reflexivity. Qed.

(** C3: when, after [j] plain failures, the query fails or prints
    nothing and its standard error is exactly the text for an unknown
    job id, the retrieval returns the record that holds the job
    identifier only, and the launch of that query is the last thing
    it does; the query was launched [j + 1] times, once when this
    happens on the first attempt. *)
Theorem qacct_raw_forgotten_job (timeout quantum : Z) (s : State)
    (j : nat) (p : completed) :
  Z.of_nat j < timeout / quantum →
  (∀ i, (i < j)%nat →
     plain_failure (spawn W (length (commands (trace s)) + i) (scontrol task))
     = true) →
  spawn W (length (commands (trace s)) + j) (scontrol task) = Ran p →
  query_failed (Ran p) = true →
  stderr p = invalid_job_id →
  ∃ es,
    runs (_qacct_raw W task timeout quantum) s
      (Ok {[ "JobId" := drm_jobID task ]}) (es ++ [EvSpawn (scontrol task)]) ∧
    commands (es ++ [EvSpawn (scontrol task)]) = replicate (S j) (scontrol task).
Proof.
  intros Hj Hpre Hp Hfail Herr.
  assert (quantum ≠ 0) as Hq.
  { intros ->. rewrite Z.div_0_r in Hj. lia. }
  set (start := time_time W (clock_reads (trace s))).
  set (n := timeout / quantum) in *.
  destruct (xrange_split n j ltac:(lia)) as [rest Hsplit].
  destruct (qacct_loop_resume W task quantum n start (xrange (Z.of_nat j))
              (Z.of_nat j :: rest) None (extend s [EvTime]))
    as (es & Hc & _ & _ & Hres).
  { intros i Hi. rewrite xrange_length, Nat2Z.id in Hi. simpl.
    rewrite commands_app, length_app. simpl. rewrite Nat.add_0_r. by apply Hpre. }
  rewrite xrange_length, Nat2Z.id in Hc.
  destruct (qacct_attempt_runs W task (extend (extend s [EvTime]) es))
    as (es1 & _ & Hnil & Hrun1).
  simpl in Hnil, Hrun1.
  rewrite !commands_app, !length_app, Hc, length_replicate in Hnil, Hrun1.
  simpl in Hnil, Hrun1. rewrite Nat.add_0_r, Hp in Hnil, Hrun1.
  assert (attempt_result task (Ran p) = Ok (Return {[ "JobId" := drm_jobID task ]}))
    as Hres1.
  { unfold attempt_result. rewrite (failed_not_succeeded _ Hfail).
    unfold forgotten. simpl. rewrite Herr, strip_invalid_job_id.
    by rewrite bool_decide_eq_true_2. }
  rewrite Hres1 in Hnil, Hrun1. rewrite Hnil in Hrun1 by done.
  exists ([EvTime] ++ es). split.
  - apply qacct_raw_enter; [done |]. fold start n.
    exists (Returned {[ "JobId" := drm_jobID task ]}),
      (es ++ [EvSpawn (scontrol task)] ++ []), [].
    split; [by rewrite !app_nil_r, <- app_assoc |].
    split; [|apply runs_ret].
    rewrite Hsplit. apply Hres. cbn [qacct_loop].
    eapply runs_bind; [exact Hrun1 | apply runs_ret].
  - rewrite !commands_app. simpl. by rewrite Hc, <- replicate_S_end.
Qed.

(** C4, on the code: when all the timeout / quantum attempts (at
    least one) fail plainly, the query is launched exactly that many
    times, with a sleep of the quantum between two attempts, and the
    retrieval raises the error for exhausted retries, with the job
    identifier and the whole seconds since the start; the number of
    tries that the error reports is the index of the last attempt,
    one less than the number of attempts made. *)
Theorem qacct_raw_exhausted_reports_last_index (timeout quantum : Z) (s : State) :
  1 ≤ timeout / quantum →
  (∀ j, (j < Z.to_nat (timeout / quantum))%nat →
     plain_failure (spawn W (length (commands (trace s)) + j) (scontrol task))
     = true) →
  ∃ es,
    runs (_qacct_raw W task timeout quantum) s
      (Raise (ValueError (drm_jobID task) (timeout / quantum - 1)
                (fmt_d (Qminus
                   (time_time W (clock_reads (trace s) + Z.to_nat (timeout / quantum)))
                   (time_time W (clock_reads (trace s)))))))
      es ∧
    commands es = replicate (Z.to_nat (timeout / quantum)) (scontrol task) ∧
    sleeps es = replicate (Z.to_nat (timeout / quantum) - 1) quantum.
Proof.
  intros Hn Hall.
  assert (quantum ≠ 0) as Hq.
  { intros ->. rewrite Z.div_0_r in Hn. lia. }
  set (start := time_time W (clock_reads (trace s))).
  set (n := timeout / quantum) in *.
  destruct (qacct_loop_resume W task quantum n start (xrange n) [] None
              (extend s [EvTime])) as (es & Hc & Ht & Hs & Hres).
  { intros j Hj. rewrite xrange_length in Hj. simpl.
    rewrite commands_app, length_app. simpl. rewrite Nat.add_0_r. by apply Hall. }
  specialize (Hres _ _ (runs_ret _ _)). rewrite !app_nil_r in Hres.
  rewrite xrange_length in Hc.
  assert (clock_reads es = (Z.to_nat n - 1)%nat) as Ht'.
  { by rewrite Ht, xrange_count_pos'. }
  assert (sleeps es = replicate (Z.to_nat n - 1) quantum) as Hs'.
  { by rewrite Hs, xrange_count_before_last'. }
  assert (last_index None (xrange n) = Some (n - 1)) as Hlast.
  { unfold last_index. by rewrite xrange_last'. }
  rewrite Hlast in Hres.
  exists ([EvTime] ++ es ++ [EvTime]). split; [|split].
  - apply qacct_raw_enter; [done |]. fold start n.
    exists (Exhausted (Some (n - 1))), es, [EvTime].
    split; [done |]. split; [exact Hres |].
    eapply (runs_bind _ _ _ _ [_] _ []); [apply runs_now |].
    simpl. rewrite !clock_reads_app, Ht'.
    change (clock_reads [EvTime]) with 1%nat.
    replace (clock_reads (trace s) + 1 + (Z.to_nat n - 1))%nat
      with (clock_reads (trace s) + Z.to_nat n)%nat by lia.
    apply runs_raise.
  - rewrite !commands_app. simpl. by rewrite Hc, app_nil_r.
  - rewrite !sleeps_app. simpl. by rewrite Hs', app_nil_r.
Qed.

End RetrievalClaims.

(** C2, as stated, fails: with a timeout of 10 and a quantum of 15 the
    query is not launched at all, even in a world where it would
    succeed, and the retrieval fails. *)
Lemma qacct_raw_no_attempt_below_quantum :
  0 < 10 ∧ 0 < 15 ∧
  commands (trace (snd (_qacct_raw Sample.healthy Sample.task7 10 15 Sample.initial)))
  = [] ∧
  fst (_qacct_raw Sample.healthy Sample.task7 10 15 Sample.initial)
  = Raise (UnboundLocalError "i").
Proof. by vm_compute. Qed.

Lemma qacct_raw_attempts_bound_witness :
  0 < 600 ∧ 0 < 15 ∧
  ∃ r es k,
    runs (_qacct_raw Sample.broken Sample.task7 600 15) Sample.initial r es ∧
    commands es = replicate k (scontrol Sample.task7) ∧
    Z.of_nat k ≤ 600 / 15 ∧
    ((∀ j, (j < Z.to_nat (600 / 15))%nat →
        plain_failure
          (spawn Sample.broken (length (commands (trace Sample.initial)) + j)
             (scontrol Sample.task7)) = true) →
     Z.of_nat k = 600 / 15) ∧
    (600 < 15 → k = 0%nat ∧ ∃ e, r = Raise e).
Proof.
  split; [lia |]. split; [lia |].
  apply (qacct_raw_attempts_bound Sample.broken Sample.task7 600 15 Sample.initial); lia.
Defined.

Lemma qacct_raw_forgotten_job_witness :
  Z.of_nat 2 < 600 / 15 ∧
  (∀ i, (i < 2)%nat →
     plain_failure
       (spawn Sample.fading (length (commands (trace Sample.initial)) + i)
          (scontrol Sample.task7)) = true) ∧
  ∃ es,
    runs (_qacct_raw Sample.fading Sample.task7 600 15) Sample.initial
      (Ok {[ "JobId" := "7" ]}) (es ++ [EvSpawn (scontrol Sample.task7)]) ∧
    commands (es ++ [EvSpawn (scontrol Sample.task7)])
    = replicate 3 (scontrol Sample.task7).
Proof.
  assert (∀ i, (i < 2)%nat →
     plain_failure
       (spawn Sample.fading (length (commands (trace Sample.initial)) + i)
          (scontrol Sample.task7)) = true) as Hpre.
  { intros [|[|i]] Hi; [reflexivity | reflexivity | lia]. }
  split; [by vm_compute |]. split; [exact Hpre |].
  exact (qacct_raw_forgotten_job Sample.fading Sample.task7 600 15 Sample.initial 2
           {| returncode := 1; stdout := ""; stderr := invalid_job_id |}
           ltac:(by vm_compute) Hpre eq_refl eq_refl eq_refl).
Defined.

Lemma qacct_raw_exhausted_witness :
  1 ≤ 600 / 15 ∧
  (∀ j, (j < Z.to_nat (600 / 15))%nat →
     plain_failure
       (spawn Sample.broken (length (commands (trace Sample.initial)) + j)
          (scontrol Sample.task7)) = true) ∧
  ∃ es,
    runs (_qacct_raw Sample.broken Sample.task7 600 15) Sample.initial
      (Raise (ValueError "7" 39 40)) es ∧
    commands es = replicate 40 (scontrol Sample.task7) ∧
    sleeps es = replicate 39 15.
Proof.
  assert (∀ j, (j < Z.to_nat (600 / 15))%nat →
     plain_failure
       (spawn Sample.broken (length (commands (trace Sample.initial)) + j)
          (scontrol Sample.task7)) = true) as Hall by (intros; reflexivity).
  split; [by vm_compute |]. split; [exact Hall |].
  exact (qacct_raw_exhausted_reports_last_index Sample.broken Sample.task7 600 15
           Sample.initial ltac:(by vm_compute) Hall).
Defined.

(** The job is unknown at the first attempt: one clock reading, one
    launch, and the record with the job identifier. *)
Example qacct_raw_forgotten_at_once :
  _qacct_raw Sample.amnesic Sample.task7 600 15 Sample.initial
  = (Ok {[ "JobId" := "7" ]},
     extend Sample.initial [EvTime; EvSpawn (scontrol Sample.task7)]).
Proof. by vm_compute. Qed.

(** ** The parser of the accounting output *)

Section Parser.

Import ParserSpec.

(** Cutting with [find] and two slices is cutting at the first
    occurrence. *)
Lemma cut_find c s :
  cut c s =
  if Str.find c s =? -1 then None
  else Some (Str.take (Z.to_nat (Str.find c s)) s,
             Str.drop (Z.to_nat (Str.find c s + 1)) s).
Proof.
  induction s as [|a s IH]; [done |].
  cbn [cut Str.find]. destruct (Ascii.eqb a c); [done |].
  rewrite IH. pose proof (find_ge s c).
  destruct (Z.eqb_spec (Str.find c s) (-1)) as [E|E]; [done |].
  destruct (Z.eqb_spec (Str.find c s + 1) (-1)); [lia |].
  replace (Z.to_nat (Str.find c s + 1 + 1)) with (S (Z.to_nat (Str.find c s + 1))) by lia.
  replace (Z.to_nat (Str.find c s + 1)) with (S (Z.to_nat (Str.find c s))) by lia.
  done.
Qed.

(** Inside the loop, with a current key, no error can arise. *)
Lemma qacct_parse_with_key task raw toks : ∀ (d : gmap string string) key v0,
  d !! key = Some v0 →
  qacct_parse task raw d (Some key) toks =
  Ok (foldl (λ d kv, <[kv.1 := kv.2]> d)
        (<[key := continued v0 (entries toks).1]> d) (entries toks).2).
Proof.
  induction toks as [|t toks IH]; intros d key v0 Hkey.
  - simpl. by rewrite insert_id.
  - cbn [qacct_parse entries]. pose proof (cut_find "=" t) as Hcut.
    destruct (entries toks) as [conts es] eqn:Hent.
    destruct (Z.eqb_spec (Str.find "=" t) (-1)) as [E|E]; rewrite Hcut.
    + rewrite Hkey. erewrite IH by apply lookup_insert_eq.
      simpl. by rewrite insert_insert_eq.
    + erewrite IH by apply lookup_insert_eq.
      simpl. by rewrite insert_insert_eq, (insert_id d key v0).
Qed.

Lemma qacct_parse_refines task raw toks :
  qacct_parse task raw ∅ None toks = parse task raw toks.
Proof.
  unfold parse. destruct toks as [|t toks]; [done |].
  cbn [qacct_parse entries]. pose proof (cut_find "=" t) as Hcut.
  destruct (Z.eqb_spec (Str.find "=" t) (-1)) as [E|E]; rewrite Hcut.
  - by destruct (entries toks).
  - erewrite qacct_parse_with_key by apply lookup_insert_eq.
    destruct (entries toks) as [conts es]. simpl.
    by rewrite insert_insert_eq.
Qed.

End Parser.

Section Tokens.

Lemma solid_tail c t : solid (String c t) → Str.isspace c = false ∧ solid t.
Proof.
  intros H. split; [by apply (H EmptyString c t) |].
  intros pre a post ->. by apply (H (String c pre) a post).
Qed.

Lemma split_go_solid t s :
  solid t → Str.split_go (t +:+ s) = (t +:+ (Str.split_go s).1, (Str.split_go s).2).
Proof.
  induction t as [|c t IH]; intros Ht.
  - rewrite !append_nil_l. by destruct (Str.split_go s).
  - apply solid_tail in Ht as [Hc Ht]. rewrite !append_cons.
    cbn [Str.split_go]. by rewrite IH, Hc.
Qed.

Lemma push_word_word t ws : t ≠ EmptyString → Str.push_word t ws = t :: ws.
Proof. by destruct t. Qed.

(** Joining words with single spaces and splitting gives the words
    back. *)
Lemma split_join toks : Forall word toks → Str.split (Str.join " " toks) = toks.
Proof.
  induction 1 as [|t toks [Hne Ht] Htoks IH]; [done |].
  unfold Str.split in *. destruct toks as [|t' toks].
  - cbn [Str.join]. rewrite <- (append_nil_r t) at 1.
    rewrite split_go_solid by done. cbn [Str.split_go fst snd].
    rewrite append_nil_r. by apply push_word_word.
  - change (Str.join " " (t :: t' :: toks))
      with (t +:+ String " " (Str.join " " (t' :: toks))).
    rewrite split_go_solid by done. cbn [Str.split_go].
    destruct (Str.split_go (Str.join " " (t' :: toks))) as [w ws].
    change (Str.isspace " ") with true. cbn [fst snd].
    rewrite append_nil_r, IH. by apply push_word_word.
Qed.

Lemma split_go_rstrip s : Str.split_go (Str.rstrip s) = Str.split_go s.
Proof.
  induction s as [|c s IH]; [done |]. cbn [Str.rstrip Str.split_go].
  destruct (Str.isspace c) eqn:Ec; simpl.
  - destruct (Str.is_empty (Str.rstrip s)) eqn:Ee.
    + apply is_empty_true in Ee. rewrite Ee in IH. by rewrite <- IH.
    + cbn [Str.split_go]. by rewrite Ec, IH.
  - by rewrite Ec, IH.
Qed.

Lemma split_lstrip s : Str.split (Str.lstrip s) = Str.split s.
Proof.
  unfold Str.split. induction s as [|c s IH]; [done |].
  cbn [Str.lstrip Str.split_go]. destruct (Str.isspace c) eqn:Ec.
  - rewrite IH. by destruct (Str.split_go s).
  - cbn [Str.split_go]. by rewrite Ec.
Qed.

(** Trimming before splitting changes nothing. *)
Lemma split_strip s : Str.split (Str.strip s) = Str.split s.
Proof.
  unfold Str.strip. rewrite <- (split_lstrip s).
  unfold Str.split. by rewrite split_go_rstrip.
Qed.

Lemma contains_char_find c s :
  Str.contains (String c EmptyString) s = false ↔ Str.find c s = -1.
Proof.
  rewrite find_none, <- not_true_iff_false, contains_spec. split.
  - intros H pre post ->. apply H. by exists pre, post.
  - intros H (pre & post & ->). by apply (H pre post).
Qed.

End Tokens.

Section ParserClaims.

Import ParserSpec.

(** The cut is at the first equals sign: the key has none. *)
Lemma cut_Some c s k v :
  cut c s = Some (k, v) →
  s = k +:+ String c v ∧ Str.find c k = -1.
Proof.
  rewrite cut_find. destruct (Z.eqb_spec (Str.find c s) (-1)) as [E|E]; [done |].
  intros [= <- <-]. by apply find_split.
Qed.

Lemma cut_None c s : cut c s = None ↔ Str.contains (String c EmptyString) s = false.
Proof.
  rewrite cut_find, contains_char_find.
  by destruct (Z.eqb_spec (Str.find c s) (-1)).
Qed.

(** C5: on the tokens of any text the loop of [_qacct_raw] computes
    what the specification describes: a token with an equals sign is
    cut at the first one and starts or replaces the entry of its key,
    a token without one is appended, after one space, to the value
    of the entry before it.  The text A=1 extra B=2 gives A: 1 extra
    and B: 2. *)
Theorem qacct_parse_merges_continuations (task : Task) (raw : string) :
  qacct_parse task raw ∅ None (Str.split (Str.strip raw))
  = parse task raw (Str.split raw)
  ∧ qacct_parse task "A=1 extra B=2" ∅ None
      (Str.split (Str.strip "A=1 extra B=2"))
    = Ok {[ "A" := "1 extra"; "B" := "2" ]}.
Proof.
  split.
  - by rewrite split_strip, qacct_parse_refines.
  - by vm_compute.
Qed.

(** C6: when the first token of the text has no equals sign, the
    parser raises the error that carries this token and the whole
    text. *)
Theorem qacct_parse_orphan_token (task : Task) (raw tok : string)
    (toks : list string) :
  Str.split (Str.strip raw) = tok :: toks →
  Str.contains "=" tok = false →
  qacct_parse task raw ∅ None (Str.split (Str.strip raw))
  = Raise (EnvironmentError task (drm_jobID task) raw tok).
Proof.
  intros -> Hno. apply contains_char_find in Hno.
  cbn [qacct_parse]. by rewrite Hno.
Qed.

End ParserClaims.

Lemma qacct_parse_orphan_token_witness :
  Str.split (Str.strip "extra B=2") = ["extra"; "B=2"] ∧
  Str.contains "=" "extra" = false ∧
  qacct_parse Sample.task7 "extra B=2" ∅ None (Str.split (Str.strip "extra B=2"))
  = Raise (EnvironmentError Sample.task7 "7" "extra B=2" "extra").
Proof.
  split; [reflexivity |]. split; [reflexivity |].
  exact (qacct_parse_orphan_token Sample.task7 "extra B=2" "extra" ["B=2"]
           eq_refl eq_refl).
Defined.

(** One entry: a key, a value and the tokens that continue the value. *)
Lemma qacct_parse_one_entry (task : Task) (raw k v : string) (conts : list string) :
  Str.contains "=" k = false →
  Forall (λ t, Str.contains "=" t = false) conts →
  qacct_parse task raw ∅ None ((k +:+ String "=" v) :: conts)
  = Ok {[ k := ParserSpec.continued v conts ]}.
Proof.
  intros Hk Hconts. rewrite qacct_parse_refines. unfold ParserSpec.parse.
  assert (ParserSpec.entries conts = (conts, [])) as Hent.
  { induction Hconts as [|t conts Ht _ IH]; [done |].
    cbn [ParserSpec.entries]. rewrite IH.
    by apply cut_None in Ht as ->. }
  assert (ParserSpec.cut "=" (k +:+ String "=" v) = Some (k, v)) as Hcut.
  { apply cut_None in Hk. clear -Hk. induction k as [|a k IH].
    - by rewrite append_nil_l.
    - rewrite append_cons. cbn [ParserSpec.cut] in *.
      destruct (Ascii.eqb a "="); [done |].
      destruct (ParserSpec.cut "=" k) as [[??]|]; [done |]. by rewrite IH. }
  cbn [ParserSpec.entries]. by rewrite Hent, Hcut.
Qed.

(** The two texts of the specification, as the output of the query. *)
Example qacct_raw_merges_continuation :
  fst (_qacct_raw Sample.spaced Sample.task7 600 15 Sample.initial)
  = Ok {[ "A" := "1 extra"; "B" := "2" ]}.
Proof. by vm_compute. Qed.

Example qacct_raw_rejects_orphan :
  fst (_qacct_raw Sample.garbled Sample.task7 600 15 Sample.initial)
  = Raise (EnvironmentError Sample.task7 "7" "extra B=2" "extra").
Proof. by vm_compute. Qed.

(** ** Bulk status query *)

(** C7: when the listing command cannot be started, or exits with an
    error status, [_qstat_all] returns the empty table and raises
    nothing. *)
Theorem qstat_all_fails_open (W : World) (s : State) :
  (spawn W (length (commands (trace s))) squeue = NotLaunched ∨
   ∃ p, spawn W (length (commands (trace s))) squeue = Ran p ∧ returncode p ≠ 0) →
  runs (_qstat_all W) s (Ok ∅) [EvSpawn squeue].
Proof.
  intros H. unfold _qstat_all.
  eapply (runs_bind _ _ _ _ [_] _ []); [apply runs_run |].
  destruct H as [-> | (p & -> & Hrc)]; simpl.
  - apply runs_ret.
  - apply Z.eqb_neq in Hrc as ->. apply runs_ret.
Qed.

Lemma qstat_all_fails_open_witness :
  (spawn Sample.broken (length (commands (trace Sample.initial))) squeue = NotLaunched ∨
   ∃ p, spawn Sample.broken (length (commands (trace Sample.initial))) squeue = Ran p ∧
        returncode p ≠ 0) ∧
  runs (_qstat_all Sample.broken) Sample.initial (Ok ∅) [EvSpawn squeue].
Proof.
  assert (spawn Sample.broken (length (commands (trace Sample.initial))) squeue = NotLaunched ∨
   ∃ p, spawn Sample.broken (length (commands (trace Sample.initial))) squeue = Ran p ∧
        returncode p ≠ 0) as H.
  { right. eexists. split; [reflexivity |]. simpl. lia. }
  split; [exact H |].
  exact (qstat_all_fails_open Sample.broken Sample.initial H).
Defined.

(** The same without the tool. *)
Example qstat_all_without_squeue :
  _qstat_all Sample.toolless Sample.initial
  = (Ok ∅, extend Sample.initial [EvSpawn squeue]).
Proof. reflexivity. Qed.

(** ** Submission *)

Section Search.

Import SubmitSpec.

Lemma digits_prefix_spec s :
  ∃ post, s = Str.digits_prefix s +:+ post ∧
          all_digits (Str.digits_prefix s) = true ∧
          starts_with_digit post = false.
Proof.
  induction s as [|c s (post & Hs & Hd & Hp)].
  - by exists EmptyString.
  - cbn [Str.digits_prefix]. destruct (Str.isdigit c) eqn:Ec.
    + exists post. rewrite append_cons, <- Hs. cbn [all_digits].
      by rewrite Ec, Hd.
    + by exists (String c s).
Qed.

Lemma digits_prefix_unique ds post :
  all_digits ds = true → starts_with_digit post = false →
  Str.digits_prefix (ds +:+ post) = ds.
Proof.
  intros Hd Hp. induction ds as [|c ds IH].
  - rewrite append_nil_l. destruct post as [|c post]; [done |].
    simpl in *. by rewrite Hp.
  - rewrite append_cons. cbn [Str.digits_prefix all_digits] in *.
    apply andb_true_iff in Hd as [-> Hd]. by rewrite IH.
Qed.

Lemma match_job_at_spec s ds : match_job_at s = Some ds ↔ number_at s ds.
Proof.
  unfold match_job_at, number_at. split.
  - destruct (Str.startswith "job " s) eqn:Hs; [|done].
    apply startswith_spec in Hs as [rest ->].
    change (Str.drop 4 ("job " +:+ rest)) with rest.
    destruct (digits_prefix_spec rest) as (post & Hrest & Hd & Hp).
    destruct (Str.is_empty (Str.digits_prefix rest)) eqn:He; [done |].
    intros [= <-]. exists post. rewrite <- Hrest.
    split; [done |]. split; [|done]. intros E. by rewrite E in He.
  - intros (post & -> & Hne & Hd & Hp).
    replace (Str.startswith "job " ("job " +:+ ds +:+ post)) with true
      by (symmetry; apply startswith_spec; eauto).
    change (Str.drop 4 ("job " +:+ ds +:+ post)) with (ds +:+ post).
    rewrite digits_prefix_unique by done. by destruct ds.
Qed.

Lemma number_after_nil s ds : number_after s EmptyString ds ↔ number_at s ds.
Proof.
  unfold number_after. split.
  - by intros (rest & -> & H).
  - intros H. by exists s.
Qed.

Lemma number_after_cons c s pre ds :
  number_after (String c s) (String c pre) ds ↔ number_after s pre ds.
Proof.
  unfold number_after. split.
  - intros (rest & [= ->] & H). eauto.
  - intros (rest & -> & H). eauto.
Qed.

Lemma number_after_head c s a pre ds :
  number_after (String c s) (String a pre) ds → a = c.
Proof. by intros (rest & [= ->] & _). Qed.

Lemma number_after_empty pre ds : ¬ number_after EmptyString pre ds.
Proof.
  intros (rest & H & (post & -> & _)).
  destruct pre; discriminate.
Qed.

(** [re_search_job] finds nothing exactly when no place of the text
    has the word job, a space and a digit. *)
Lemma re_search_job_None s :
  re_search_job s = None ↔ ∀ pre ds, ¬ number_after s pre ds.
Proof.
  induction s as [|c s IH].
  - split; [intros _ pre ds; apply number_after_empty | done].
  - cbn [re_search_job].
    destruct (match_job_at (String c s)) as [d|] eqn:Hm.
    + split; [done |]. intros H. exfalso.
      by apply (H EmptyString d), number_after_nil, match_job_at_spec.
    + rewrite IH. split.
      * intros H [|a pre] ds Hn.
        -- apply number_after_nil, match_job_at_spec in Hn. congruence.
        -- pose proof (number_after_head _ _ _ _ _ Hn) as ->.
           by apply number_after_cons, H in Hn.
      * intros H pre ds Hn. by apply (H (String c pre) ds), number_after_cons.
Qed.

(** Otherwise it returns the digits at the first such place. *)
Lemma re_search_job_Some s : ∀ ds,
  re_search_job s = Some ds ↔ first_number s ds.
Proof.
  unfold first_number. induction s as [|c s IH]; intros ds.
  - split; [done |]. intros (pre & H & _). by apply number_after_empty in H.
  - cbn [re_search_job].
    destruct (match_job_at (String c s)) as [d|] eqn:Hm.
    + apply match_job_at_spec in Hm as Hat. split.
      * intros [= <-]. exists EmptyString.
        split; [by apply number_after_nil |]. intros; simpl; lia.
      * intros ([|a pre] & Hn & Hmin).
        -- apply number_after_nil, match_job_at_spec in Hn. congruence.
        -- specialize (Hmin EmptyString d ltac:(by apply number_after_nil)).
           simpl in Hmin. lia.
    + rewrite IH. split.
      * intros (pre & Hn & Hmin). exists (String c pre).
        split; [by apply number_after_cons |].
        intros [|a pre'] ds' Hn'.
        -- apply number_after_nil, match_job_at_spec in Hn'. congruence.
        -- pose proof (number_after_head _ _ _ _ _ Hn') as ->.
           apply number_after_cons, Hmin in Hn'. simpl. lia.
      * intros ([|a pre] & Hn & Hmin).
        -- apply number_after_nil, match_job_at_spec in Hn. congruence.
        -- pose proof (number_after_head _ _ _ _ _ Hn) as ->.
           exists pre. split; [by apply number_after_cons in Hn |].
           intros pre' ds' Hn'.
           specialize (Hmin (String c pre') ds' ltac:(by apply number_after_cons)).
           simpl in Hmin. lia.
Qed.

End Search.

Section SubmitClaims.

Import SubmitSpec.

(** Removing the old output files launches nothing. *)
Lemma submit_cleanup (task : Task) (s : State) :
  ∃ s1,
    for_ [output_stdout_path task; output_stderr_path task]
      (λ p, b ← path_exists p; if b : bool then unlink p else mret tt) s
    = (Ok tt, s1) ∧
    commands (trace s1) = commands (trace s).
Proof.
  unfold for_, path_exists, unlink, mbind, M_bind, mret, M_ret.
  destruct (bool_decide (output_stdout_path task ∈ files s)); simpl;
    match goal with
    | |- context [bool_decide ?P] => destruct (bool_decide P)
    end; simpl; eexists; (split; [reflexivity |]); simpl;
    rewrite ?commands_app, ?app_nil_r; done.
Qed.

Lemma submit_job_result (W : World) (task : Task) (s : State) (p : completed) :
  spawn W (length (commands (trace s))) (sbatch task) = Ran p →
  returncode p = 0 →
  fst (submit_job W task s) =
  match re_search_job (stdout p) with
  | Some ds => Ok ds
  | None => Raise AttributeError
  end.
Proof.
  intros Hp Hrc. unfold submit_job.
  destruct (submit_cleanup task s) as (s1 & Hclean & Hcmd).
  rewrite (bind_ok _ _ _ _ _ Hclean).
  assert (check_output W (sbatch task) s1
          = (Ok (stdout p), extend s1 [EvSpawn (sbatch task)])) as Hout.
  { unfold check_output. erewrite bind_ok by apply runs_run.
    rewrite Hcmd, Hp. unfold lift, check_output_of. by rewrite Hrc. }
  rewrite (bind_ok _ _ _ _ _ Hout).
  by destruct (re_search_job (stdout p)).
Qed.

(** C8, amended: when the submit command exits with 0, [submit_job]
    returns the run of digits at the first place where the output has
    the word job, a space and a digit; when there is no such place it
    fails with the error of reading a field of a missing match, which
    carries no text.  For the output Submitted batch job 4821 it
    returns 4821. *)
Theorem submit_job_first_job_number (W : World) (task : Task) (s : State)
    (p : completed) :
  spawn W (length (commands (trace s))) (sbatch task) = Ran p →
  returncode p = 0 →
  (∀ ds, fst (submit_job W task s) = Ok ds ↔ first_number (stdout p) ds) ∧
  (fst (submit_job W task s) = Raise AttributeError ↔
     ∀ pre ds, ¬ number_after (stdout p) pre ds) ∧
  carried_text AttributeError = [] ∧
  fst (submit_job Sample.accepting Sample.task7 Sample.initial) = Ok "4821".
Proof.
  intros Hp Hrc. rewrite (submit_job_result W task s p Hp Hrc).
  split; [|split; [|split; reflexivity]].
  - intros ds. rewrite <- re_search_job_Some.
    destruct (re_search_job (stdout p)); split; congruence.
  - rewrite <- re_search_job_None.
    destruct (re_search_job (stdout p)); split; congruence.
Qed.

End SubmitClaims.

Lemma submit_job_first_job_number_witness :
  spawn Sample.accepting (length (commands (trace Sample.initial)))
    (sbatch Sample.task7)
  = Ran {| returncode := 0; stdout := "Submitted batch job 4821"; stderr := "" |} ∧
  (∀ ds, fst (submit_job Sample.accepting Sample.task7 Sample.initial) = Ok ds ↔
         SubmitSpec.first_number "Submitted batch job 4821" ds) ∧
  (fst (submit_job Sample.accepting Sample.task7 Sample.initial) = Raise AttributeError ↔
     ∀ pre ds, ¬ SubmitSpec.number_after "Submitted batch job 4821" pre ds) ∧
  carried_text AttributeError = [] ∧
  fst (submit_job Sample.accepting Sample.task7 Sample.initial) = Ok "4821".
Proof.
  split; [reflexivity |].
  exact (submit_job_first_job_number Sample.accepting Sample.task7 Sample.initial
           {| returncode := 0; stdout := "Submitted batch job 4821"; stderr := "" |}
           eq_refl eq_refl).
Defined.

(** C8, as stated, fails: the submit command exits with 0 and prints
    the bare number 4821, the output has no match, and the error that
    [submit_job] raises does not carry the output. *)
Lemma submit_job_error_without_stdout :
  re_search_job "4821" = None ∧
  fst (submit_job Sample.parsable Sample.task7 Sample.initial) = Raise AttributeError ∧
  ¬ ∃ e, fst (submit_job Sample.parsable Sample.task7 Sample.initial) = Raise e ∧
         "4821" ∈ carried_text e.
Proof.
  split; [reflexivity |]. split; [reflexivity |].
  intros (e & He & Hin). vm_compute in He. injection He as <-.
  simpl in Hin. by apply not_elem_of_nil in Hin.
Qed.

(** ** Cancellation *)

Section Grouper.

Context {A : Type}.

Lemma kept_block (block : list A) k :
  kept ((Some <$> block) ++ replicate k None) = block.
Proof.
  unfold kept. rewrite omap_app.
  replace (omap id (replicate k (@None A))) with (@nil A)
    by (induction k; [done | by simpl]).
  rewrite app_nil_r. induction block as [|x block IH]; [done |].
  csimpl. by f_equal.
Qed.

Lemma grouper_go_chunked n : (0 < n)%nat → ∀ fuel (l : list A),
  (length l ≤ fuel)%nat → chunked n l (kept <$> grouper_go fuel n l).
Proof.
  intros Hn. induction fuel as [|fuel IH]; intros l Hl.
  - destruct l; [|simpl in Hl; lia]. by repeat split.
  - destruct l as [|x l]; [by repeat split |].
    cbn [grouper_go]. set (l0 := x :: l) in *.
    rewrite fmap_cons, kept_block.
    assert (length l0 = S (length l)) as Hlen by done.
    destruct (IH (drop n l0)) as (Hcat & Hall & Hfull).
    { rewrite length_drop. lia. }
    split; [|split].
    + simpl. by rewrite Hcat, take_drop.
    + constructor; [|done]. rewrite length_take. lia.
    + intros [|i] c Hc Hi.
      * injection Hc as <-. rewrite length_take.
        destruct (kept <$> grouper_go fuel n (drop n l0)) as [|c' rest] eqn:E;
          [simpl in Hi; lia |].
        apply Forall_cons in Hall as [Hc' _].
        assert (drop n l0 ≠ []) as Hne.
        { intros E'. rewrite E' in Hcat. destruct c'; [simpl in Hc'; lia | done]. }
        assert (n < length l0)%nat.
        { destruct (decide (n < length l0)%nat); [done |].
          destruct Hne. apply drop_ge. lia. }
        lia.
      * apply (Hfull i c Hc). simpl in Hi. lia.
Qed.

Lemma grouper_go_sizes n fuel : ∀ l : list A,
  length <$> (kept <$> grouper_go fuel n l) = sizes_go fuel n (length l).
Proof.
  induction fuel as [|fuel IH]; intros l; [done |].
  destruct l as [|x l]; [done |].
  cbn [grouper_go]. set (l0 := x :: l).
  rewrite !fmap_cons, kept_block, IH, length_take, length_drop. done.
Qed.

End Grouper.

Section CancelClaims.

Variable W : World.

Lemma runs_call c s :
  spawn W (length (commands (trace s))) c ≠ NotLaunched →
  ∃ rc, runs (call W c) s (Ok rc) [EvSpawn c].
Proof.
  intros H. destruct (spawn W (length (commands (trace s))) c) as [p|] eqn:E; [|done].
  exists (returncode p). unfold call.
  eapply (runs_bind _ _ _ _ [_] _ []); [apply runs_run |].
  rewrite E. apply runs_ret.
Qed.

Lemma kill_loop (groups : list (list (option Task))) : ∀ s,
  (∀ j pids, spawn W (length (commands (trace s)) + j) (scancel pids) ≠ NotLaunched) →
  runs (for_ groups (λ group,
          let group := omap id group in
          let pids := Str.join " " ((λ t, unicode (drm_jobID t)) <$> group) in
          _ ← call W (scancel pids);
          mret tt))
    s (Ok tt) ((λ g, EvSpawn (scancel (pids_of (kept g)))) <$> groups).
Proof.
  induction groups as [|g groups IH]; intros s Hspawn; [apply runs_ret |].
  cbn [for_]. rewrite fmap_cons.
  change (?x :: ?l) with ([x] ++ l).
  pose proof (Hspawn 0%nat (pids_of (kept g))) as H0.
  rewrite Nat.add_0_r in H0. apply runs_call in H0 as [rc Hrc].
  eapply runs_bind.
  - eapply (runs_bind _ _ _ _ [_] _ []); [exact Hrc | apply runs_ret].
  - apply IH. intros j pids. simpl.
    rewrite commands_app, length_app. simpl.
    rewrite <- Nat.add_assoc. apply Hspawn.
Qed.

(** C9, amended: when scancel can be started, [kill_tasks] cuts the tasks into
    consecutive chunks of 50, the last one possibly shorter, and
    calls scancel once per chunk, in order, with the job identifiers
    of the chunk joined by spaces; it does nothing else.  For 120
    tasks these are three calls, for 50, 50 and 20 tasks. *)
Theorem kill_tasks_chunks_of_fifty (tasks : list Task) (s : State) :
  (∀ j pids, spawn W (length (commands (trace s)) + j) (scancel pids) ≠ NotLaunched) →
  ∃ chunks : list (list Task),
    chunked 50 tasks chunks ∧
    runs (kill_tasks W tasks) s (Ok tt)
      ((λ c, EvSpawn (scancel (Str.join " " (drm_jobID <$> c)))) <$> chunks) ∧
    (length tasks = 120%nat → length <$> chunks = [50; 50; 20]%nat).
Proof.
  intros Hspawn. exists (kept <$> grouper 50 tasks). split; [|split].
  - apply grouper_go_chunked; lia.
  - rewrite <- list_fmap_compose. by apply kill_loop.
  - intros Hlen. unfold grouper. by rewrite grouper_go_sizes, Hlen.
Qed.

End CancelClaims.

Lemma kill_tasks_chunks_of_fifty_witness :
  (∀ j pids,
     spawn Sample.healthy (length (commands (trace Sample.initial)) + j) (scancel pids)
     ≠ NotLaunched) ∧
  ∃ chunks : list (list Task),
    chunked 50 (replicate 120 Sample.task7) chunks ∧
    runs (kill_tasks Sample.healthy (replicate 120 Sample.task7)) Sample.initial (Ok tt)
      ((λ c, EvSpawn (scancel (Str.join " " (drm_jobID <$> c)))) <$> chunks) ∧
    (length (replicate 120 Sample.task7) = 120%nat →
     length <$> chunks = [50; 50; 20]%nat).
Proof.
  assert (∀ j pids,
     spawn Sample.healthy (length (commands (trace Sample.initial)) + j) (scancel pids)
     ≠ NotLaunched) as H by (intros j pids; simpl; discriminate).
  split; [exact H |].
  exact (kill_tasks_chunks_of_fifty Sample.healthy (replicate 120 Sample.task7)
           Sample.initial H).
Defined.

(** C9, as stated, fails: where scancel cannot be started, the call for
    the first chunk raises the operating system's error and ends the
    loop; for 120 tasks one call is tried, not three. *)
Lemma kill_tasks_without_scancel :
  fst (kill_tasks Sample.toolless (replicate 120 Sample.task7) Sample.initial)
  = Raise OSError ∧
  length (commands (trace (snd (kill_tasks Sample.toolless
                                  (replicate 120 Sample.task7) Sample.initial))))
  = 1%nat ∧
  length (commands (trace (snd (kill_tasks Sample.toolless
                                  (replicate 120 Sample.task7) Sample.initial))))
  ≠ 3%nat.
Proof. by vm_compute. Qed.

(** 120 tasks: three calls of scancel. *)
Example kill_tasks_120 :
  length (commands (trace (snd (kill_tasks Sample.healthy (replicate 120 Sample.task7)
                                  Sample.initial)))) = 3%nat.
Proof. by vm_compute. Qed.

(** ** Status of the submitted tasks *)

Section StatusClaims.

Variable W : World.

(** The listing command is launched once, and [_qstat_all] always
    returns a table. *)
Lemma qstat_all_runs s :
  ∃ qjobs, runs (_qstat_all W) s (Ok qjobs) [EvSpawn squeue].
Proof.
  unfold runs, _qstat_all. erewrite bind_ok by apply runs_run.
  destruct (spawn W (length (commands (trace s))) squeue) as [p|]; simpl.
  - destruct (returncode p =? 0).
    + destruct (Str.split_on _ _), (Str.re_split_ws _). by eexists.
    + by eexists.
  - by eexists.
Qed.

Lemma statuses_lookup (g : string → string) (tasks : list Task) :
  ∀ (d0 : gmap string string) (k : string),
    foldl (λ d task, <[drm_jobID task := g (drm_jobID task)]> d) d0 tasks !! k
    = if decide (k ∈ drm_jobID <$> tasks) then Some (g k) else d0 !! k.
Proof.
  induction tasks as [|t tasks IH]; intros d0 k; [done |].
  cbn [foldl]. rewrite IH, fmap_cons.
  destruct (decide (k ∈ drm_jobID <$> tasks)) as [Hin|Hin].
  - rewrite decide_True; [done | by right].
  - destruct (decide (k = drm_jobID t)) as [->|Hne].
    + rewrite lookup_insert_eq, decide_True; [done | by left].
    + rewrite lookup_insert_ne by done.
      rewrite decide_False; [done |]. by intros [?|?]%elem_of_cons.
Qed.

(** C10: for a collection that is not empty, [drm_statuses] runs the
    listing command once and returns a mapping whose keys are the job
    identifiers of the tasks; the value for a task is the ST field of
    its row in the table, and ??? when it has no row or the row has
    no ST field.  For the empty collection it returns the empty
    mapping and launches nothing. *)
Theorem drm_statuses_from_table (tasks : list Task) (s : State) :
  match tasks with
  | [] => drm_statuses W tasks s = (Ok ∅, s)
  | _ :: _ =>
      ∃ qjobs d,
        runs (_qstat_all W) s (Ok qjobs) [EvSpawn squeue] ∧
        runs (drm_statuses W tasks) s (Ok d) [EvSpawn squeue] ∧
        dom d = list_to_set (drm_jobID <$> tasks) ∧
        Forall (λ task, d !! drm_jobID task = Some (status_of qjobs (drm_jobID task)))
          tasks
  end.
Proof.
  destruct tasks as [|t tasks]; [done |].
  destruct (qstat_all_runs s) as [qjobs Hq].
  set (ts := t :: tasks).
  set (g := λ jid : string,
         default "???" (default ∅ (qjobs !! unicode jid) !! "ST")).
  assert (∀ jid, g jid = status_of qjobs jid) as Hg.
  { intros jid. unfold g, status_of, unicode.
    destruct (qjobs !! jid) as [row|]; simpl;
      [by destruct (row !! "ST") | by rewrite lookup_empty]. }
  exists qjobs, (foldl (λ d task, <[drm_jobID task := g (drm_jobID task)]> d) ∅ ts).
  split; [done |]. split; [|split].
  - unfold drm_statuses. rewrite decide_True by done.
    eapply (runs_bind _ _ _ _ [_] _ []); [exact Hq | apply runs_ret].
  - apply set_eq. intros k.
    rewrite elem_of_dom, elem_of_list_to_set, statuses_lookup.
    destruct (decide (k ∈ drm_jobID <$> ts)); [by split; eauto |].
    rewrite lookup_empty. split; [by intros [? ?] | done].
  - apply Forall_forall. intros task Hin. rewrite statuses_lookup, <- Hg.
    rewrite decide_True; [done |]. by apply list_elem_of_fmap_2.
Qed.

End StatusClaims.

(** * Further properties of the adapter *)

(** ** Accounting retrieval: how the loop ends *)

Section RetrievalEnds.

Variable W : World.
Variable task : Task.

Lemma qacct_raw_enter_raise (timeout quantum : Z) (s : State) e es1 :
  quantum ≠ 0 →
  runs (qacct_loop W task quantum (timeout / quantum)
          (time_time W (clock_reads (trace s))) None (xrange (timeout / quantum)))
    (extend s [EvTime]) (Raise e) es1 →
  runs (_qacct_raw W task timeout quantum) s (Raise e) ([EvTime] ++ es1).
Proof.
  intros Hq Hloop. unfold _qacct_raw. eapply runs_bind; [apply runs_now |].
  rewrite <- (app_nil_l es1). eapply (runs_bind _ _ _ _ []).
  { unfold py_div. destruct (Z.eqb_spec quantum 0); [done | apply runs_ret]. }
  rewrite extend_nil. by apply runs_bind_raise.
Qed.

Lemma xrange_all_before_last (n : Z) (j : nat) :
  Z.of_nat j < n →
  filter (λ i, i + 1 < n) (xrange (Z.of_nat j)) = xrange (Z.of_nat j).
Proof.
  intros Hj. apply filter_all. rewrite xrange_nat.
  apply Forall_fmap, Forall_seq. intros i Hi. simpl. lia.
Qed.

(** The attempt with index [j], reached after [j] plain failures,
    decides the retrieval unless it is a plain failure itself: the
    launch of its query is the last event. *)
Lemma qacct_raw_decided (timeout quantum : Z) (s : State) (j : nat) :
  Z.of_nat j < timeout / quantum →
  (∀ i, (i < j)%nat →
     plain_failure (spawn W (length (commands (trace s)) + i) (scontrol task))
     = true) →
  attempt_result task (spawn W (length (commands (trace s)) + j) (scontrol task))
  ≠ Ok Failed →
  ∃ es,
    commands es = replicate j (scontrol task) ∧
    sleeps es = replicate j quantum ∧
    runs (_qacct_raw W task timeout quantum) s
      (match attempt_result task
               (spawn W (length (commands (trace s)) + j) (scontrol task)) with
       | Ok (Break out) =>
           qacct_parse task out ∅ None (Str.split (Str.strip out))
       | Ok (Return d) => Ok d
       | Ok Failed => Raise OSError
       | Raise e => Raise e
       end)
      (es ++ [EvSpawn (scontrol task)]).
Proof.
  intros Hj Hpre Hdec.
  assert (quantum ≠ 0) as Hq.
  { intros ->. rewrite Z.div_0_r in Hj. lia. }
  set (start := time_time W (clock_reads (trace s))).
  set (n := timeout / quantum) in *.
  destruct (xrange_split n j ltac:(lia)) as [rest Hsplit].
  destruct (qacct_loop_resume W task quantum n start (xrange (Z.of_nat j))
              (Z.of_nat j :: rest) None (extend s [EvTime]))
    as (es & Hc & _ & Hs & Hres).
  { intros i Hi. rewrite xrange_length, Nat2Z.id in Hi. simpl.
    rewrite commands_app, length_app. simpl. rewrite Nat.add_0_r. by apply Hpre. }
  rewrite xrange_all_before_last in Hs by done.
  rewrite xrange_length, Nat2Z.id in Hc, Hs.
  destruct (qacct_attempt_runs W task (extend (extend s [EvTime]) es))
    as (es1 & _ & Hnil & Hrun1).
  simpl in Hnil, Hrun1.
  rewrite !commands_app, !length_app, Hc, length_replicate in Hnil, Hrun1.
  simpl in Hnil, Hrun1. rewrite Nat.add_0_r in Hnil, Hrun1.
  rewrite Hnil in Hrun1 by done. clear Hnil.
  exists ([EvTime] ++ es). split; [|split].
  - rewrite commands_app. by simpl.
  - rewrite sleeps_app. by simpl.
  - destruct (attempt_result task _) as [[out|d|]|e]; [| |done|].
    + apply qacct_raw_enter; [done |]. fold start n.
      exists (Broke out), (es ++ [EvSpawn (scontrol task)] ++ []), [].
      split; [by rewrite !app_nil_r, <- app_assoc |].
      split; [|apply runs_lift].
      rewrite Hsplit. apply Hres. cbn [qacct_loop].
      eapply runs_bind; [exact Hrun1 | apply runs_ret].
    + apply qacct_raw_enter; [done |]. fold start n.
      exists (Returned d), (es ++ [EvSpawn (scontrol task)] ++ []), [].
      split; [by rewrite !app_nil_r, <- app_assoc |].
      split; [|apply runs_ret].
      rewrite Hsplit. apply Hres. cbn [qacct_loop].
      eapply runs_bind; [exact Hrun1 | apply runs_ret].
    + rewrite <- app_assoc. apply qacct_raw_enter_raise; [done |]. fold start n.
      rewrite Hsplit. apply Hres. cbn [qacct_loop].
      by apply runs_bind_raise.
Qed.

(** X1: when, after [j] plain failures, the query exits with 0 and
    prints something, the retrieval returns what the parser makes of
    that output; the query was launched [j + 1] times, the launch of
    the successful query is the last event, and the retrieval slept
    for the quantum [j] times. *)
Theorem qacct_raw_succeeds_after_failures (timeout quantum : Z) (s : State)
    (j : nat) (p : completed) :
  Z.of_nat j < timeout / quantum →
  (∀ i, (i < j)%nat →
     plain_failure (spawn W (length (commands (trace s)) + i) (scontrol task))
     = true) →
  spawn W (length (commands (trace s)) + j) (scontrol task) = Ran p →
  returncode p = 0 →
  Str.strip (stdout p) ≠ EmptyString →
  ∃ es,
    runs (_qacct_raw W task timeout quantum) s
      (qacct_parse task (stdout p) ∅ None (Str.split (Str.strip (stdout p))))
      (es ++ [EvSpawn (scontrol task)]) ∧
    commands (es ++ [EvSpawn (scontrol task)]) = replicate (S j) (scontrol task) ∧
    sleeps (es ++ [EvSpawn (scontrol task)]) = replicate j quantum.
Proof.
  intros Hj Hpre Hp Hrc Hout.
  assert (attempt_result task (Ran p) = Ok (Break (stdout p))) as Hres.
  { unfold attempt_result, query_succeeded, Str.truthy. rewrite Hrc. simpl.
    by destruct (Str.strip (stdout p)). }
  destruct (qacct_raw_decided timeout quantum s j Hj Hpre) as (es & Hc & Hs & Hrun).
  { by rewrite Hp, Hres. }
  rewrite Hp, Hres in Hrun. exists es. split; [done |]. split.
  - rewrite commands_app, Hc. simpl. by rewrite <- replicate_S_end.
  - rewrite sleeps_app, Hs. simpl. by rewrite app_nil_r.
Qed.

(** X2: when, after [j] plain failures, the query cannot be started,
    the retrieval raises the operating system's error at once: it does
    not retry, sleep or log after that launch. *)
Theorem qacct_raw_tool_missing (timeout quantum : Z) (s : State) (j : nat) :
  Z.of_nat j < timeout / quantum →
  (∀ i, (i < j)%nat →
     plain_failure (spawn W (length (commands (trace s)) + i) (scontrol task))
     = true) →
  spawn W (length (commands (trace s)) + j) (scontrol task) = NotLaunched →
  ∃ es,
    runs (_qacct_raw W task timeout quantum) s (Raise OSError)
      (es ++ [EvSpawn (scontrol task)]) ∧
    commands (es ++ [EvSpawn (scontrol task)]) = replicate (S j) (scontrol task).
Proof.
  intros Hj Hpre Hp.
  destruct (qacct_raw_decided timeout quantum s j Hj Hpre) as (es & Hc & Hs & Hrun).
  { by rewrite Hp. }
  rewrite Hp in Hrun. exists es. split; [done |].
  rewrite commands_app, Hc. simpl. by rewrite <- replicate_S_end.
Qed.

End RetrievalEnds.

(** ** Accounting retrieval: in every world *)

Section RetrievalAlways.

Variable W : World.
Variable task : Task.

(** Whatever the world does: the loop launches the query only, sleeps
    for the quantum only, at most once per index that is not the last
    of the budget, and lets no error out but the one of a command that
    cannot be started. *)
Lemma qacct_loop_effects quantum num_retries start indices : ∀ i_prev s,
  ∃ r es k m,
    runs (qacct_loop W task quantum num_retries start i_prev indices) s r es ∧
    commands es = replicate k (scontrol task) ∧
    sleeps es = replicate m quantum ∧
    (m ≤ length (filter (λ i : Z, (i + 1 < num_retries)%Z) indices))%nat ∧
    (∀ e, r = Raise e → e = OSError).
Proof.
  induction indices as [|i indices IH]; intros i_prev s.
  - exists (Ok (Exhausted i_prev)), [], 0%nat, 0%nat.
    split; [apply runs_ret |]. by repeat split.
  - destruct (qacct_attempt_runs W task s) as (es1 & (Hc1 & Hs1 & _) & _ & Hrun1).
    cbn [qacct_loop].
    destruct (attempt_result task _) as [[out|d|]|e] eqn:Hres.
    + exists (Ok (Broke out)), ((EvSpawn (scontrol task) :: es1) ++ []), 1%nat, 0%nat.
      split; [eapply runs_bind; [exact Hrun1 | apply runs_ret] |].
      rewrite app_nil_r. simpl. rewrite Hc1, Hs1.
      repeat split; [lia | done].
    + exists (Ok (Returned d)), ((EvSpawn (scontrol task) :: es1) ++ []), 1%nat, 0%nat.
      split; [eapply runs_bind; [exact Hrun1 | apply runs_ret] |].
      rewrite app_nil_r. simpl. rewrite Hc1, Hs1.
      repeat split; [lia | done].
    + destruct (qacct_between_runs W task quantum num_retries start i
                  (extend s (EvSpawn (scontrol task) :: es1)))
        as (es2 & Hc2 & _ & Hs2 & Hrun2).
      destruct (IH (Some i) (extend (extend s (EvSpawn (scontrol task) :: es1)) es2))
        as (r & es3 & k & m & Hrun3 & Hc3 & Hs3 & Hm & Herr).
      exists r, ((EvSpawn (scontrol task) :: es1) ++ es2 ++ es3), (S k),
        ((if (i + 1 <? num_retries)%Z then 1 else 0) + m)%nat.
      split; [|split; [|split; [|split]]].
      * eapply runs_bind; [exact Hrun1 |]. eapply runs_bind; [exact Hrun2 | exact Hrun3].
      * rewrite !commands_app. simpl. by rewrite Hc1, Hc2, Hc3.
      * rewrite !sleeps_app.
        change (sleeps (EvSpawn (scontrol task) :: es1)) with (sleeps es1).
        rewrite Hs1, Hs2, Hs3. by destruct (i + 1 <? num_retries).
      * rewrite filter_cons. destruct (Z.ltb_spec (i + 1) num_retries).
        -- rewrite decide_True by done. simpl. lia.
        -- rewrite decide_False by lia. simpl. lia.
      * done.
    + exists (Raise e), (EvSpawn (scontrol task) :: es1), 1%nat, 0%nat.
      split; [by apply runs_bind_raise |].
      simpl. rewrite Hc1, Hs1. repeat split; [lia |].
      intros e' [= <-]. unfold attempt_result in Hres.
      destruct (spawn W _ _); [|congruence].
      destruct (query_succeeded _); [done |]. by destruct (forgotten _).
Qed.

(** The parser raises nothing but the error for a token without an
    equals sign. *)
Lemma qacct_parse_errors raw toks e :
  qacct_parse task raw ∅ None toks = Raise e →
  ∃ kv, e = EnvironmentError task (drm_jobID task) raw kv.
Proof.
  rewrite qacct_parse_refines. unfold ParserSpec.parse.
  destruct (ParserSpec.entries toks) as [[|t conts] es]; [done |].
  intros [= <-]. eauto.
Qed.

(** The effects and the errors of a retrieval in any world. *)
Lemma qacct_raw_effects (timeout quantum : Z) (s : State) :
  quantum ≠ 0 →
  ∃ r es k m,
    runs (_qacct_raw W task timeout quantum) s r es ∧
    commands es = replicate k (scontrol task) ∧
    sleeps es = replicate m quantum ∧
    (m ≤ length (filter (λ i : Z, (i + 1 < timeout / quantum)%Z)
                   (xrange (timeout / quantum))))%nat ∧
    (∀ e, r = Raise e →
       e = OSError ∨ e = UnboundLocalError "i" ∨
       (∃ i sec, e = ValueError (drm_jobID task) i sec) ∨
       (∃ raw kv, e = EnvironmentError task (drm_jobID task) raw kv)).
Proof.
  intros Hq.
  set (n := timeout / quantum).
  set (start := time_time W (clock_reads (trace s))).
  destruct (qacct_loop_effects quantum n start (xrange n) None (extend s [EvTime]))
    as (r1 & es1 & k & m & Hrun1 & Hc1 & Hs1 & Hm & Herr1).
  destruct r1 as [e1|e1].
  - destruct (qacct_after_loop W task start e1 (extend (extend s [EvTime]) es1))
      as (r & es2 & Hc2 & Hs2 & Hrun2).
    exists r, ([EvTime] ++ es1 ++ es2), k, m. split; [|split; [|split; [|split]]].
    + apply qacct_raw_enter; [done |]. fold start n. by exists e1, es1, es2.
    + rewrite !commands_app. simpl. by rewrite Hc1, Hc2, app_nil_r.
    + rewrite !sleeps_app. simpl. by rewrite Hs1, Hs2, app_nil_r.
    + done.
    + intros e ->. destruct e1 as [out|d|[i|]].
      * destruct (runs_det _ _ _ _ _ _ Hrun2 (runs_lift _ _)) as [Hr _].
        symmetry in Hr. apply qacct_parse_errors in Hr as [kv ->]. eauto 10.
      * by destruct (runs_det _ _ _ _ _ _ Hrun2 (runs_ret _ _)) as [? _].
      * assert (runs (t ← now W;
                      (raise (ValueError (drm_jobID task) i (fmt_d (Qminus t start)))
                       : M (gmap string string)))
                  (extend (extend s [EvTime]) es1)
                  (Raise (ValueError (drm_jobID task) i
                     (fmt_d (Qminus (time_time W (clock_reads
                        (trace (extend (extend s [EvTime]) es1)))) start))))
                  ([EvTime] ++ [])) as Hv
          by (eapply runs_bind; [apply runs_now | apply runs_raise]).
        destruct (runs_det _ _ _ _ _ _ Hrun2 Hv) as [[= ->] _]. eauto 10.
      * destruct (runs_det _ _ _ _ _ _ Hrun2 (runs_raise _ _)) as [[= ->] _]. eauto.
  - exists (Raise e1), ([EvTime] ++ es1), k, m. split; [|split; [|split; [|split]]].
    + by apply qacct_raw_enter_raise.
    + rewrite commands_app. by simpl.
    + rewrite sleeps_app. by simpl.
    + done.
    + intros e [= <-]. left. by apply Herr1.
Qed.

End RetrievalAlways.

Section RetrievalAlwaysExtras.

Variable W : World.
Variable task : Task.

(** X3: the only errors that a retrieval lets out are the one of a
    query that cannot be started, the division by a zero quantum, the
    unbound loop index of an empty budget, the error for exhausted
    retries and the parser's error; an error status of the query never
    reaches the caller as such, and no key is ever missed. *)
Theorem qacct_raw_error_kinds (timeout quantum : Z) (s : State) (e : exn) :
  fst (_qacct_raw W task timeout quantum s) = Raise e →
  e = OSError ∨ e = ZeroDivisionError ∨ e = UnboundLocalError "i" ∨
  (∃ i sec, e = ValueError (drm_jobID task) i sec) ∨
  (∃ raw kv, e = EnvironmentError task (drm_jobID task) raw kv).
Proof.
  destruct (decide (quantum = 0)) as [->|Hq].
  - intros [= <-]. auto.
  - destruct (qacct_raw_effects W task timeout quantum s Hq)
      as (r & es & k & m & Hrun & _ & _ & _ & Herr).
    unfold runs in Hrun. rewrite Hrun. simpl. intros ->.
    destruct (Herr e eq_refl) as [?|[?|[?|?]]]; auto.
Qed.

(** X4: with a positive quantum the retrieval sleeps for the quantum
    only, and in total for no longer than the timeout less one
    quantum. *)
Theorem qacct_raw_sleeps_bounded (timeout quantum : Z) (s : State) :
  0 < quantum →
  ∃ m,
    sleeps (trace (snd (_qacct_raw W task timeout quantum s)))
    = sleeps (trace s) ++ replicate m quantum ∧
    Z.of_nat m * quantum ≤ Z.max 0 (timeout - quantum).
Proof.
  intros Hq.
  destruct (qacct_raw_effects W task timeout quantum s ltac:(lia))
    as (r & es & k & m & Hrun & _ & Hs & Hm & _).
  exists m. unfold runs in Hrun. rewrite Hrun. simpl.
  rewrite sleeps_app, Hs. split; [done |].
  destruct (decide (1 ≤ timeout / quantum)) as [Hn|Hn].
  - rewrite xrange_count_before_last' in Hm by done.
    pose proof (Z.mul_div_le timeout quantum Hq). nia.
  - rewrite xrange_nonpos in Hm by lia. simpl in Hm.
    replace m with 0%nat by lia. lia.
Qed.

(** X5: with a quantum of zero the retrieval fails on the division;
    with a budget of zero or fewer attempts it launches nothing and
    fails on the loop index, which was never bound, instead of raising
    the error for exhausted retries.  In both cases it has only read
    the clock. *)
Theorem qacct_raw_without_budget (timeout quantum : Z) (s : State) :
  quantum = 0 ∨ timeout / quantum ≤ 0 →
  _qacct_raw W task timeout quantum s
  = (Raise (if quantum =? 0 then ZeroDivisionError else UnboundLocalError "i"),
     extend s [EvTime]).
Proof.
  intros H. destruct (Z.eqb_spec quantum 0) as [->|Hq]; [done |].
  destruct H as [?|Hn]; [done |].
  apply (qacct_raw_enter W task timeout quantum s _ [EvTime] Hq).
  exists (Exhausted None), [], []. split; [done |].
  rewrite xrange_nonpos by done. split; [apply runs_ret | apply runs_raise].
Qed.

End RetrievalAlwaysExtras.

Lemma qacct_raw_error_kinds_witness :
  fst (_qacct_raw Sample.broken Sample.task7 600 15 Sample.initial)
  = Raise (ValueError "7" 39 40) ∧
  (ValueError "7" 39 40 = OSError ∨ ValueError "7" 39 40 = ZeroDivisionError ∨
   ValueError "7" 39 40 = UnboundLocalError "i" ∨
   (∃ i sec, ValueError "7" 39 40 = ValueError (drm_jobID Sample.task7) i sec) ∨
   (∃ raw kv, ValueError "7" 39 40
              = EnvironmentError Sample.task7 (drm_jobID Sample.task7) raw kv)).
Proof.
  assert (fst (_qacct_raw Sample.broken Sample.task7 600 15 Sample.initial)
          = Raise (ValueError "7" 39 40)) as H by (by vm_compute).
  split; [exact H |].
  exact (qacct_raw_error_kinds Sample.broken Sample.task7 600 15 Sample.initial _ H).
Defined.

Lemma qacct_raw_sleeps_bounded_witness :
  0 < 15 ∧
  ∃ m,
    sleeps (trace (snd (_qacct_raw Sample.broken Sample.task7 600 15 Sample.initial)))
    = sleeps (trace Sample.initial) ++ replicate m 15 ∧
    Z.of_nat m * 15 ≤ Z.max 0 (600 - 15).
Proof.
  split; [lia |].
  exact (qacct_raw_sleeps_bounded Sample.broken Sample.task7 600 15 Sample.initial
           ltac:(lia)).
Defined.

Lemma qacct_raw_without_budget_witness :
  (15 = 0 ∨ 10 / 15 ≤ 0) ∧
  _qacct_raw Sample.healthy Sample.task7 10 15 Sample.initial
  = (Raise (if 15 =? 0 then ZeroDivisionError else UnboundLocalError "i"),
     extend Sample.initial [EvTime]).
Proof.
  assert (15 = 0 ∨ 10 / 15 ≤ 0) as H by (right; by vm_compute).
  split; [exact H |].
  exact (qacct_raw_without_budget Sample.healthy Sample.task7 10 15 Sample.initial H).
Defined.

(** ** The parser: when it succeeds, and with which keys *)

Section ParserExtras.

Import ParserSpec.

Lemma dict_dom (es : list (string * string)) : ∀ d0 : gmap string string,
  dom (foldl (λ d kv, <[kv.1 := kv.2]> d) d0 es) = dom d0 ∪ list_to_set es.*1.
Proof.
  induction es as [|[k v] es IH]; intros d0; csimpl.
  - by rewrite (right_id_L ∅ (∪)).
  - rewrite IH, dom_insert_L.
    by rewrite (comm_L (∪) {[k]} (dom d0)), (assoc_L (∪)).
Qed.

Lemma cut_token_key t : fst <$> cut "=" t = token_key t.
Proof.
  rewrite cut_find. unfold token_key.
  by destruct (Str.find "=" t =? -1).
Qed.

Lemma entries_keys toks : (entries toks).2.*1 = omap token_key toks.
Proof.
  induction toks as [|t toks IH]; [done |].
  cbn [entries omap list_omap]. rewrite <- cut_token_key.
  destruct (entries toks) as [conts es].
  destruct (cut "=" t) as [[k v]|]; csimpl in *; by rewrite IH.
Qed.

Lemma token_key_plain t k : token_key t = Some k → Str.contains "=" k = false.
Proof.
  unfold token_key.
  destruct (Z.eqb_spec (Str.find "=" t) (-1)) as [E|E]; [done |].
  intros [= <-]. apply contains_char_find. by apply find_split.
Qed.

(** X6: the parser succeeds exactly on the token lists that are empty
    or start with a token that has an equals sign; a token without one
    further on never makes it fail. *)
Theorem qacct_parse_succeeds_iff (task : Task) (raw : string) (toks : list string) :
  (∃ d, qacct_parse task raw ∅ None toks = Ok d) ↔
  match toks with
  | [] => True
  | t :: _ => Str.contains "=" t = true
  end.
Proof.
  rewrite qacct_parse_refines. unfold parse.
  destruct toks as [|t toks]; [by split; eauto |].
  cbn [entries]. destruct (entries toks) as [conts es].
  destruct (cut "=" t) as [[k v]|] eqn:Hcut.
  - split; [|by eauto]. intros _.
    destruct (Str.contains "=" t) eqn:E; [done |].
    apply cut_None in E. congruence.
  - apply cut_None in Hcut. rewrite Hcut. split; [by intros [? ?] | done].
Qed.

(** X7: the keys of the record are exactly the keys of the tokens that
    have an equals sign, and no key has an equals sign in it. *)
Theorem qacct_parse_keys (task : Task) (raw : string) (toks : list string)
    (d : gmap string string) :
  qacct_parse task raw ∅ None toks = Ok d →
  dom d = list_to_set (omap token_key toks) ∧
  set_Forall (λ k, Str.contains "=" k = false) (dom d).
Proof.
  rewrite qacct_parse_refines. unfold parse.
  pose proof (entries_keys toks) as Hkeys.
  destruct (entries toks) as [[|t conts] es]; [|done].
  intros [= <-]. simpl in Hkeys.
  assert (dom (dict es) = list_to_set (omap token_key toks)) as ->.
  { unfold dict. by rewrite dict_dom, dom_empty_L, (left_id_L ∅ (∪)), Hkeys. }
  split; [done |].
  intros k Hin%elem_of_list_to_set.
  apply list_elem_of_omap in Hin as (t & _ & Hk).
  by eapply token_key_plain.
Qed.

End ParserExtras.

(** ** The parser: from a text and back *)

Section ParserRoundTrip.

Lemma solid_cons c t : Str.isspace c = false → solid t → solid (String c t).
Proof.
  intros Hc Ht [|a pre] b post.
  - rewrite append_nil_l. by intros [= <- _].
  - rewrite append_cons. intros [= -> H]. by eapply Ht.
Qed.

Lemma spaceless_solid t : spaceless t = true → solid t.
Proof.
  induction t as [|c t IH]; simpl.
  - intros _ [|??] ??; discriminate.
  - intros [Hc Ht]%andb_true_iff. apply solid_cons; [|by apply IH].
    by apply negb_true_iff.
Qed.

Lemma spaceless_app a b :
  spaceless a = true → spaceless b = true → spaceless (a +:+ b) = true.
Proof.
  intros Ha Hb. induction a as [|c a IH]; [done |].
  rewrite append_cons. simpl in *.
  apply andb_true_iff in Ha as [-> Ha]. by rewrite IH.
Qed.

Lemma append_assoc (a b c : string) : (a +:+ b) +:+ c = a +:+ b +:+ c.
Proof.
  induction a as [|x a IH]; [done |]. by rewrite !append_cons, IH.
Qed.

Lemma join_cons sep x y l :
  Str.join sep (x :: y :: l) = x +:+ sep +:+ Str.join sep (y :: l).
Proof. done. Qed.

(** Appending the continuation tokens one by one is joining them to
    the value with single spaces. *)
Lemma continued_join conts : ∀ v,
  ParserSpec.continued v conts = Str.join " " (v :: conts).
Proof.
  unfold ParserSpec.continued.
  induction conts as [|c conts IH]; intros v; [done |].
  cbn [foldl]. rewrite IH. destruct conts as [|c' conts]; [done |].
  by rewrite !join_cons, !append_assoc.
Qed.

(** X8: a key without white space or equals sign, a first word of the
    value and further words without equals signs, written as one line
    with single spaces, parse to the record that maps the key to the
    value with its words joined by single spaces. *)
Theorem qacct_parse_text_round_trip (task : Task) (k v0 : string)
    (conts : list string) :
  spaceless k = true →
  Str.contains "=" k = false →
  spaceless v0 = true →
  Forall (λ t, continuation t = true) conts →
  qacct_parse task (Str.join " " ((k +:+ String "=" v0) :: conts)) ∅ None
    (Str.split (Str.strip (Str.join " " ((k +:+ String "=" v0) :: conts))))
  = Ok {[ k := Str.join " " (v0 :: conts) ]}.
Proof.
  intros Hk Hkeq Hv Hconts.
  rewrite split_strip, split_join.
  - rewrite qacct_parse_one_entry, continued_join; [done | done |].
    eapply Forall_impl; [exact Hconts |]. intros t Ht. unfold continuation in Ht.
    apply andb_true_iff in Ht as [_ Ht]. by apply negb_true_iff.
  - constructor.
    + split; [by destruct k |].
      apply spaceless_solid, spaceless_app; [done |]. simpl. by rewrite Hv.
    + eapply Forall_impl; [exact Hconts |]. intros t Ht. unfold continuation in Ht.
      apply andb_true_iff in Ht as [[Hne Hs]%andb_true_iff _]. split.
      * by destruct t.
      * by apply spaceless_solid.
Qed.

End ParserRoundTrip.

Lemma qacct_parse_text_round_trip_witness :
  spaceless "Name" = true ∧
  Str.contains "=" "Name" = false ∧
  spaceless "nightly" = true ∧
  Forall (λ t, continuation t = true) ["build"; "x86"] ∧
  qacct_parse Sample.task7 (Str.join " " (("Name" +:+ String "=" "nightly") :: ["build"; "x86"]))
    ∅ None
    (Str.split (Str.strip
       (Str.join " " (("Name" +:+ String "=" "nightly") :: ["build"; "x86"]))))
  = Ok {[ "Name" := Str.join " " ("nightly" :: ["build"; "x86"]) ]}.
Proof.
  assert (Forall (λ t, continuation t = true) ["build"; "x86"]) as H
    by (repeat constructor).
  split; [reflexivity |]. split; [reflexivity |]. split; [reflexivity |].
  split; [exact H |].
  exact (qacct_parse_text_round_trip Sample.task7 "Name" "nightly" ["build"; "x86"]
           eq_refl eq_refl eq_refl H).
Defined.

Lemma qacct_raw_succeeds_after_failures_witness :
  Z.of_nat 2 < 600 / 15 ∧
  (∀ i, (i < 2)%nat →
     plain_failure
       (spawn Scenario.recovering (length (commands (trace Sample.initial)) + i)
          (scontrol Sample.task7)) = true) ∧
  ∃ es,
    runs (_qacct_raw Scenario.recovering Sample.task7 600 15) Sample.initial
      (qacct_parse Sample.task7 "JobId=7 JobState=COMPLETED" ∅ None
         (Str.split (Str.strip "JobId=7 JobState=COMPLETED")))
      (es ++ [EvSpawn (scontrol Sample.task7)]) ∧
    commands (es ++ [EvSpawn (scontrol Sample.task7)])
    = replicate 3 (scontrol Sample.task7) ∧
    sleeps (es ++ [EvSpawn (scontrol Sample.task7)]) = replicate 2 15.
Proof.
  assert (∀ i, (i < 2)%nat →
     plain_failure
       (spawn Scenario.recovering (length (commands (trace Sample.initial)) + i)
          (scontrol Sample.task7)) = true) as Hpre.
  { intros [|[|i]] Hi; [reflexivity | reflexivity | lia]. }
  split; [by vm_compute |]. split; [exact Hpre |].
  exact (qacct_raw_succeeds_after_failures Scenario.recovering Sample.task7 600 15
           Sample.initial 2
           {| returncode := 0; stdout := "JobId=7 JobState=COMPLETED"; stderr := "" |}
           ltac:(by vm_compute) Hpre eq_refl eq_refl ltac:(by vm_compute)).
Defined.

Lemma qacct_raw_tool_missing_witness :
  Z.of_nat 2 < 600 / 15 ∧
  (∀ i, (i < 2)%nat →
     plain_failure
       (spawn Scenario.vanishing (length (commands (trace Sample.initial)) + i)
          (scontrol Sample.task7)) = true) ∧
  spawn Scenario.vanishing (length (commands (trace Sample.initial)) + 2)
    (scontrol Sample.task7) = NotLaunched ∧
  ∃ es,
    runs (_qacct_raw Scenario.vanishing Sample.task7 600 15) Sample.initial
      (Raise OSError) (es ++ [EvSpawn (scontrol Sample.task7)]) ∧
    commands (es ++ [EvSpawn (scontrol Sample.task7)])
    = replicate 3 (scontrol Sample.task7).
Proof.
  assert (∀ i, (i < 2)%nat →
     plain_failure
       (spawn Scenario.vanishing (length (commands (trace Sample.initial)) + i)
          (scontrol Sample.task7)) = true) as Hpre.
  { intros [|[|i]] Hi; [reflexivity | reflexivity | lia]. }
  split; [by vm_compute |]. split; [exact Hpre |]. split; [reflexivity |].
  exact (qacct_raw_tool_missing Scenario.vanishing Sample.task7 600 15
           Sample.initial 2 ltac:(by vm_compute) Hpre eq_refl).
Defined.

(** ** The listing *)

Section Listing.

Variable W : World.

Lemma qstat_dom keys (lines : list string) :
  ∀ t0 : gmap string (gmap string string),
    dom (foldl (qstat_row keys) t0 lines)
    = dom t0 ∪ list_to_set (first_item <$> lines).
Proof.
  induction lines as [|l lines IH]; intros t0; csimpl.
  - by rewrite (right_id_L ∅ (∪)).
  - rewrite IH. unfold qstat_row, first_item.
    destruct (Str.re_split_ws (Str.strip l)) as [item0 items]. simpl.
    rewrite dom_insert_L.
    by rewrite (comm_L (∪) {[item0]} (dom t0)), (assoc_L (∪)).
Qed.

Lemma dict_lookup_fresh (pairs : list (string * string)) (k : string) :
  ∀ d0 : gmap string string,
    k ∉ pairs.*1 → foldl (λ d kv, <[kv.1 := kv.2]> d) d0 pairs !! k = d0 !! k.
Proof.
  induction pairs as [|[k' v] pairs IH]; intros d0 Hk; [done |].
  csimpl in *. apply not_elem_of_cons in Hk as [Hne Hk].
  rewrite IH by done. by rewrite lookup_insert_ne.
Qed.

Lemma zip_keys_fresh (keys items : list string) (k : string) :
  k ∉ keys → k ∉ (zip keys items).*1.
Proof.
  intros Hk [[k' v] [-> Hin]]%list_elem_of_fmap. simpl in Hk.
  by apply elem_of_zip_l in Hin.
Qed.

(** A row holds its own key under the name of the first column, when
    no other column has that name. *)
Lemma qstat_row_own_key key0 keys (lines : list string) :
  key0 ∉ keys →
  ∀ t0 : gmap string (gmap string string),
    (∀ jid row, t0 !! jid = Some row → row !! key0 = Some jid) →
    ∀ jid row, foldl (qstat_row (key0 :: keys)) t0 lines !! jid = Some row →
               row !! key0 = Some jid.
Proof.
  intros Hfresh. induction lines as [|l lines IH]; intros t0 Ht0; [done |].
  cbn [foldl]. apply IH. intros jid row. unfold qstat_row.
  destruct (Str.re_split_ws (Str.strip l)) as [item0 items].
  destruct (decide (item0 = jid)) as [->|Hne].
  - rewrite lookup_insert_eq. intros [= <-]. unfold dict. cbn [zip zip_with foldl].
    rewrite dict_lookup_fresh by (by apply zip_keys_fresh).
    by rewrite lookup_insert_eq.
  - rewrite lookup_insert_ne by done. apply Ht0.
Qed.

(** X9: when squeue exits with 0, the table that [_qstat_all] returns
    has a row for the first field of every line after the header and
    for nothing else (so a listing of the header alone gives the empty
    table), and when no other column has the name of the first one,
    each row holds its own key under that name. *)
Theorem qstat_all_rows (s : State) (p : completed) :
  spawn W (length (commands (trace s))) squeue = Ran p →
  returncode p = 0 →
  ∃ table,
    runs (_qstat_all W) s (Ok table) [EvSpawn squeue] ∧
    dom table = list_to_set (first_item <$> (listing_lines (stdout p)).2) ∧
    ∀ key0 keys jid row,
      listing_keys (stdout p) = key0 :: keys → key0 ∉ keys →
      table !! jid = Some row → row !! key0 = Some jid.
Proof.
  intros Hp Hrc. unfold listing_keys, listing_lines.
  destruct (Str.split_on "010" (Str.strip (stdout p))) as [line0 lines] eqn:Hlines.
  destruct (Str.re_split_ws (Str.strip line0)) as [k0 ks] eqn:Hkeys.
  exists (foldl (qstat_row (k0 :: ks)) ∅ lines). split; [|split].
  - unfold runs, _qstat_all. erewrite bind_ok by apply runs_run.
    rewrite Hp. unfold check_output_of. rewrite Hrc.
    change (0 =? 0) with true. cbv beta iota. by rewrite Hlines, Hkeys.
  - cbn [snd]. by rewrite qstat_dom, dom_empty_L, (left_id_L ∅ (∪)).
  - intros key0 keys jid row Heq Hfresh. cbn [fst] in Heq. rewrite Hkeys in Heq.
    injection Heq as <- <-. by apply qstat_row_own_key.
Qed.

End Listing.

Lemma qstat_all_rows_witness :
  spawn Sample.listing (length (commands (trace Sample.initial))) squeue
  = Ran {| returncode := 0;
           stdout := "JOBID NAME ST" +:+ String "010" "7 build CF" +:+
                     String "010" "8 test PD" +:+ String "010" "";
           stderr := "" |} ∧
  ∃ table,
    runs (_qstat_all Sample.listing) Sample.initial (Ok table) [EvSpawn squeue] ∧
    dom table
    = list_to_set (first_item <$>
        (listing_lines ("JOBID NAME ST" +:+ String "010" "7 build CF" +:+
                        String "010" "8 test PD" +:+ String "010" "")).2) ∧
    ∀ key0 keys jid row,
      listing_keys ("JOBID NAME ST" +:+ String "010" "7 build CF" +:+
                    String "010" "8 test PD" +:+ String "010" "") = key0 :: keys →
      key0 ∉ keys →
      table !! jid = Some row → row !! key0 = Some jid.
Proof.
  split; [reflexivity |].
  exact (qstat_all_rows Sample.listing Sample.initial _ eq_refl eq_refl).
Defined.

(** ** The listing and its two readers *)

Section Readers.

Variable W : World.

Lemma qstat_all_on_failure (s : State) :
  listing_failed (spawn W (length (commands (trace s))) squeue) = true →
  _qstat_all W s = (Ok ∅, extend s [EvSpawn squeue]).
Proof.
  intros H. unfold _qstat_all. erewrite bind_ok by apply runs_run.
  destruct (spawn W _ _) as [p|]; [|done].
  unfold check_output_of. simpl in H. apply negb_true_iff in H. by rewrite H.
Qed.

(** X10: when the listing fails, [drm_statuses] raises nothing and
    reports the status ??? for every task. *)
Theorem drm_statuses_unknown_when_listing_fails (tasks : list Task) (s : State) :
  listing_failed (spawn W (length (commands (trace s))) squeue) = true →
  ∃ d, fst (drm_statuses W tasks s) = Ok d ∧
       Forall (λ task, d !! drm_jobID task = Some "???") tasks.
Proof.
  intros H. unfold drm_statuses. destruct (decide (length tasks ≠ 0%nat)) as [Hne|Hnil].
  - erewrite bind_ok by (by apply qstat_all_on_failure).
    eexists. split; [done |]. simpl.
    apply Forall_forall. intros task Hin.
    rewrite (statuses_lookup (λ _, "???") tasks ∅).
    rewrite decide_True; [done |]. by apply list_elem_of_fmap_2.
  - destruct tasks; [|simpl in Hnil; lia]. by exists ∅.
Qed.

(** The loop of the generator yields the tasks that pass the test, in
    the order of the input. *)
Lemma filter_is_done_loop_yields qjobs (tasks : list Task) : ∀ s pairs,
  fst (filter_is_done_loop W (Some qjobs) tasks s) = Ok pairs →
  pairs.*1 = filter (λ task, passes qjobs task = true) tasks.
Proof.
  induction tasks as [|task tasks IH]; intros s pairs.
  - by intros [= <-].
  - cbn [filter_is_done_loop]. unfold lift, mbind, M_bind, passes.
    rewrite filter_cons.
    destruct (is_done (Some qjobs) (unicode (drm_jobID task))) as [[|]|e]; [| |done].
    + rewrite decide_True by done.
      destruct (_get_task_return_data W task s) as [[data|e] s1]; [|done].
      destruct (filter_is_done_loop W (Some qjobs) tasks s1) as [[rest|e] s2] eqn:Hrest;
        [|done].
      intros [= <-]. csimpl. f_equal. apply (IH s1). by rewrite Hrest.
    + rewrite decide_False by done. apply IH.
Qed.

Lemma filter_is_done_enter (tasks : list Task) (s : State) qjobs s1 :
  tasks ≠ [] →
  _qstat_all W s = (Ok qjobs, s1) →
  filter_is_done W tasks s = filter_is_done_loop W (Some qjobs) tasks s1.
Proof.
  intros Hne Hq. unfold filter_is_done.
  rewrite decide_True by (by destruct tasks).
  erewrite bind_ok; [done |]. by erewrite bind_ok by exact Hq.
Qed.

Lemma filter_is_done_yields (tasks : list Task) (s : State)
    (qjobs : gmap string (gmap string string))
    (pairs : list (Task * gmap string string)) :
  fst (_qstat_all W s) = Ok qjobs →
  fst (filter_is_done W tasks s) = Ok pairs →
  pairs.*1 = filter (λ task, passes qjobs task = true) tasks.
Proof.
  intros Hq. unfold filter_is_done.
  destruct (decide (length tasks ≠ 0%nat)) as [Hne|Hnil].
  - unfold mbind at 1, M_bind at 1. unfold mbind at 1, M_bind at 1.
    destruct (_qstat_all W s) as [[q|e] s1]; [|done].
    simpl in Hq. injection Hq as ->.
    apply filter_is_done_loop_yields.
  - destruct tasks; [|simpl in Hnil; lia]. by intros [= <-].
Qed.

(** X11: when the generator runs to its end without an error, the
    tasks it has yielded are the tasks of the input that pass the test
    against the table of the listing, in the order of the input. *)
Theorem filter_is_done_yields_passing_tasks (tasks : list Task) (s : State)
    (qjobs : gmap string (gmap string string))
    (pairs : list (Task * gmap string string)) :
  fst (_qstat_all W s) = Ok qjobs →
  fst (filter_is_done W tasks s) = Ok pairs →
  pairs.*1 = filter (λ task, passes qjobs task = true) tasks ∧
  Forall (λ task, is_done (Some qjobs) (unicode (drm_jobID task)) = Ok true) pairs.*1.
Proof.
  intros Hq Hrun. pose proof (filter_is_done_yields tasks s qjobs pairs Hq Hrun) as ->.
  split; [done |]. apply Forall_forall. intros task [Hp _]%list_elem_of_filter.
  unfold passes in Hp.
  by destruct (is_done (Some qjobs) (unicode (drm_jobID task))) as [[|]|].
Qed.

(** X12: a task whose row in the listing has no ST field makes the
    generator fail with the error of the missing key, where
    [drm_statuses] reports ??? for it. *)
Theorem filter_is_done_missing_status (task : Task) (tasks : list Task) (s : State)
    (qjobs : gmap string (gmap string string)) (row : gmap string string) :
  fst (_qstat_all W s) = Ok qjobs →
  qjobs !! drm_jobID task = Some row →
  row !! "ST" = None →
  fst (filter_is_done W (task :: tasks) s) = Raise (KeyError "ST") ∧
  ∃ d, fst (drm_statuses W (task :: tasks) s) = Ok d ∧
       d !! drm_jobID task = Some "???".
Proof.
  intros Hq Hrow Hst. split.
  - destruct (_qstat_all W s) as [[q|e] s1] eqn:E; [|done].
    simpl in Hq. injection Hq as ->.
    rewrite (filter_is_done_enter (task :: tasks) s qjobs s1 ltac:(done) E).
    cbn [filter_is_done_loop]. unfold lift, mbind, M_bind, is_done, unicode.
    by rewrite Hrow, Hst.
  - unfold drm_statuses. rewrite decide_True by done.
    unfold mbind, M_bind.
    destruct (_qstat_all W s) as [[q|e] s1]; [|done].
    simpl in Hq. injection Hq as ->.
    eexists. split; [done |]. cbn [fst].
    rewrite (statuses_lookup
               (λ jid, default "???" (default ∅ (qjobs !! unicode jid) !! "ST"))
               (task :: tasks) ∅).
    rewrite decide_True by (rewrite fmap_cons; by left).
    unfold unicode. rewrite Hrow. simpl. by rewrite Hst.
Qed.

(** X13: when the listing fails, every task passes the test: a
    generator that runs to its end has yielded every task of the
    input. *)
Theorem filter_is_done_all_when_listing_fails (tasks : list Task) (s : State)
    (pairs : list (Task * gmap string string)) :
  listing_failed (spawn W (length (commands (trace s))) squeue) = true →
  fst (filter_is_done W tasks s) = Ok pairs →
  pairs.*1 = tasks.
Proof.
  intros Hfail Hrun.
  rewrite (filter_is_done_yields tasks s ∅ pairs);
    [|by rewrite qstat_all_on_failure | done].
  apply filter_all, Forall_forall. intros task _.
  unfold passes, is_done. by rewrite lookup_empty.
Qed.

End Readers.

Lemma drm_statuses_unknown_when_listing_fails_witness :
  listing_failed
    (spawn Sample.toolless (length (commands (trace Sample.initial))) squeue) = true ∧
  ∃ d, fst (drm_statuses Sample.toolless [Sample.task7; Scenario.task8] Sample.initial)
       = Ok d ∧
       Forall (λ task, d !! drm_jobID task = Some "???")
         [Sample.task7; Scenario.task8].
Proof.
  split; [reflexivity |].
  exact (drm_statuses_unknown_when_listing_fails Sample.toolless
           [Sample.task7; Scenario.task8] Sample.initial eq_refl).
Defined.

Lemma filter_is_done_yields_passing_tasks_witness :
  fst (_qstat_all Scenario.cluster Sample.initial)
  = Ok {[ "7" := {[ "JOBID" := "7"; "NAME" := "build"; "ST" := "CF" ]};
          "8" := {[ "JOBID" := "8"; "NAME" := "test"; "ST" := "PD" ]} ]} ∧
  fst (filter_is_done Scenario.cluster [Sample.task7; Scenario.task8] Sample.initial)
  = Ok [(Sample.task7, {[ "JobState" := "COMPLETED" ]})] ∧
  [(Sample.task7, ({[ "JobState" := "COMPLETED" ]} : gmap string string))].*1
  = filter (λ task,
      passes {[ "7" := {[ "JOBID" := "7"; "NAME" := "build"; "ST" := "CF" ]};
                "8" := {[ "JOBID" := "8"; "NAME" := "test"; "ST" := "PD" ]} ]} task
      = true) [Sample.task7; Scenario.task8] ∧
  Forall (λ task,
      is_done
        (Some {[ "7" := {[ "JOBID" := "7"; "NAME" := "build"; "ST" := "CF" ]};
                 "8" := {[ "JOBID" := "8"; "NAME" := "test"; "ST" := "PD" ]} ]})
        (unicode (drm_jobID task)) = Ok true)
    [(Sample.task7, ({[ "JobState" := "COMPLETED" ]} : gmap string string))].*1.
Proof.
  assert (fst (_qstat_all Scenario.cluster Sample.initial)
    = Ok {[ "7" := {[ "JOBID" := "7"; "NAME" := "build"; "ST" := "CF" ]};
            "8" := {[ "JOBID" := "8"; "NAME" := "test"; "ST" := "PD" ]} ]}) as Hq
    by (by vm_compute).
  assert (fst (filter_is_done Scenario.cluster [Sample.task7; Scenario.task8]
                 Sample.initial)
    = Ok [(Sample.task7, {[ "JobState" := "COMPLETED" ]})]) as Hrun
    by (by vm_compute).
  split; [exact Hq |]. split; [exact Hrun |].
  exact (filter_is_done_yields_passing_tasks Scenario.cluster
           [Sample.task7; Scenario.task8] Sample.initial _ _ Hq Hrun).
Defined.

Lemma filter_is_done_missing_status_witness :
  fst (_qstat_all Scenario.columnless Sample.initial)
  = Ok {[ "7" := {[ "JOBID" := "7"; "NAME" := "build" ]} ]} ∧
  ({[ "7" := {[ "JOBID" := "7"; "NAME" := "build" ]} ]}
     : gmap string (gmap string string)) !! drm_jobID Sample.task7
  = Some {[ "JOBID" := "7"; "NAME" := "build" ]} ∧
  ({[ "JOBID" := "7"; "NAME" := "build" ]} : gmap string string) !! "ST" = None ∧
  fst (filter_is_done Scenario.columnless (Sample.task7 :: []) Sample.initial)
  = Raise (KeyError "ST") ∧
  ∃ d, fst (drm_statuses Scenario.columnless (Sample.task7 :: []) Sample.initial)
       = Ok d ∧
       d !! drm_jobID Sample.task7 = Some "???".
Proof.
  assert (fst (_qstat_all Scenario.columnless Sample.initial)
    = Ok {[ "7" := {[ "JOBID" := "7"; "NAME" := "build" ]} ]}) as Hq
    by (by vm_compute).
  split; [exact Hq |]. split; [by vm_compute |]. split; [by vm_compute |].
  exact (filter_is_done_missing_status Scenario.columnless Sample.task7 []
           Sample.initial _ {[ "JOBID" := "7"; "NAME" := "build" ]} Hq
           ltac:(by vm_compute) ltac:(by vm_compute)).
Defined.

Lemma filter_is_done_all_when_listing_fails_witness :
  listing_failed
    (spawn Scenario.blind (length (commands (trace Sample.initial))) squeue) = true ∧
  fst (filter_is_done Scenario.blind [Sample.task7; Scenario.task8] Sample.initial)
  = Ok [(Sample.task7, {[ "JobState" := "COMPLETED" ]});
        (Scenario.task8, {[ "JobState" := "COMPLETED" ]})] ∧
  [(Sample.task7, ({[ "JobState" := "COMPLETED" ]} : gmap string string));
   (Scenario.task8, {[ "JobState" := "COMPLETED" ]})].*1
  = [Sample.task7; Scenario.task8].
Proof.
  assert (fst (filter_is_done Scenario.blind [Sample.task7; Scenario.task8]
                 Sample.initial)
    = Ok [(Sample.task7, {[ "JobState" := "COMPLETED" ]});
          (Scenario.task8, {[ "JobState" := "COMPLETED" ]})]) as Hrun
    by (by vm_compute).
  split; [reflexivity |]. split; [exact Hrun |].
  exact (filter_is_done_all_when_listing_fails Scenario.blind
           [Sample.task7; Scenario.task8] Sample.initial _ eq_refl Hrun).
Defined.

(** ** Cancellation without the tool *)

(** X14: when scancel cannot be started, [kill_tasks] raises the
    operating system's error at the first chunk: it has tried one
    call, for the first 50 tasks, and tries no other. *)
Theorem kill_tasks_tool_missing (W : World) (task : Task) (tasks : list Task)
    (s : State) :
  (∀ pids, spawn W (length (commands (trace s))) (scancel pids) = NotLaunched) →
  kill_tasks W (task :: tasks) s
  = (Raise OSError,
     extend s [EvSpawn (scancel (Str.join " " (drm_jobID <$> take 50 (task :: tasks))))]).
Proof.
  intros Hspawn. unfold kill_tasks, grouper.
  change (length (task :: tasks)) with (S (length tasks)).
  cbn [grouper_go for_].
  set (block := take 50 (task :: tasks)).
  apply bind_raise. apply bind_raise.
  fold (kept ((Some <$> block) ++ replicate (50 - length block) None)).
  rewrite kept_block. unfold call.
  erewrite bind_ok by apply runs_run. by rewrite Hspawn.
Qed.

Lemma kill_tasks_tool_missing_witness :
  (∀ pids,
     spawn Scenario.submit_only (length (commands (trace Sample.initial)))
       (scancel pids) = NotLaunched) ∧
  kill_tasks Scenario.submit_only (Sample.task7 :: replicate 60 Scenario.task8)
    Sample.initial
  = (Raise OSError,
     extend Sample.initial
       [EvSpawn (scancel (Str.join " "
          (drm_jobID <$> take 50 (Sample.task7 :: replicate 60 Scenario.task8))))]).
Proof.
  assert (∀ pids,
     spawn Scenario.submit_only (length (commands (trace Sample.initial)))
       (scancel pids) = NotLaunched) as H by (intros; reflexivity).
  split; [exact H |].
  exact (kill_tasks_tool_missing Scenario.submit_only Sample.task7
           (replicate 60 Scenario.task8) Sample.initial H).
Defined.

(** ** Submission: effects and failures *)

Section SubmitExtras.

Variable W : World.

(** Removing the old output files: both are gone afterwards, and
    nothing was launched. *)
Lemma submit_cleanup_files (task : Task) (s : State) :
  ∃ s1,
    for_ [output_stdout_path task; output_stderr_path task]
      (λ p, b ← path_exists p; if b : bool then unlink p else mret tt) s
    = (Ok tt, s1) ∧
    commands (trace s1) = commands (trace s) ∧
    files s1 = files s ∖ {[ output_stdout_path task; output_stderr_path task ]}.
Proof.
  unfold for_, path_exists, unlink, mbind, M_bind, mret, M_ret.
  destruct (bool_decide (output_stdout_path task ∈ files s)) eqn:E1; simpl;
    match goal with
    | |- context [bool_decide ?P] => destruct (bool_decide P) eqn:E2
    end; simpl; eexists; (split; [reflexivity |]); simpl;
    rewrite ?commands_app, ?app_nil_r; (split; [done |]);
    apply set_eq; intros x;
    rewrite ?elem_of_difference, ?elem_of_union, ?elem_of_singleton;
    try apply bool_decide_eq_true in E1; try apply bool_decide_eq_false in E1;
    try apply bool_decide_eq_true in E2; try apply bool_decide_eq_false in E2;
    rewrite ?elem_of_difference, ?elem_of_singleton in E2;
    split; intros Hx; repeat split; try tauto; intros Heq;
    repeat match goal with
    | H : _ ∧ _ |- _ => destruct H
    | H : _ ∨ _ |- _ => destruct H
    end; subst; tauto.
Qed.

(** What [submit_job] returns and where it leaves the world, whatever
    the submit command does. *)
Lemma submit_job_run (task : Task) (s : State) :
  ∃ s1,
    commands (trace s1) = commands (trace s) ∧
    files s1 = files s ∖ {[ output_stdout_path task; output_stderr_path task ]} ∧
    submit_job W task s
    = (match check_output_of
               (spawn W (length (commands (trace s))) (sbatch task)) with
       | Ok out =>
           match re_search_job out with
           | Some g => Ok g
           | None => Raise AttributeError
           end
       | Raise e => Raise e
       end,
       extend s1 [EvSpawn (sbatch task)]).
Proof.
  destruct (submit_cleanup_files task s) as (s1 & Hclean & Hcmd & Hfiles).
  exists s1. split; [done |]. split; [done |].
  unfold submit_job. rewrite (bind_ok _ _ _ _ _ Hclean).
  unfold check_output. unfold mbind at 1, M_bind at 1.
  erewrite bind_ok by apply runs_run. rewrite Hcmd. unfold lift.
  destruct (check_output_of _) as [out|e]; [|done].
  by destruct (re_search_job out).
Qed.


(** X16: an error of the submit command is the error of [submit_job]:
    the error status with the output when the command exits with such
    a status, the operating system's error when it cannot be
    started. *)
Theorem submit_job_passes_error_on (task : Task) (s : State) (e : exn) :
  check_output_of (spawn W (length (commands (trace s))) (sbatch task)) = Raise e →
  fst (submit_job W task s) = Raise e ∧
  (e = OSError ∨ ∃ p, spawn W (length (commands (trace s))) (sbatch task) = Ran p ∧
                      returncode p ≠ 0 ∧
                      e = CalledProcessError (returncode p) (stdout p)).
Proof.
  intros He. destruct (submit_job_run task s) as (s1 & _ & _ & ->).
  rewrite He. split; [done |]. unfold check_output_of in He.
  destruct (spawn W _ _) as [p|]; [|left; congruence].
  right. exists p. destruct (Z.eqb_spec (returncode p) 0); [done |].
  split; [done |]. split; [done | congruence].
Qed.

(** X17: a job identifier that [submit_job] returns is a run of
    digits, not empty, and stands in the output of the submit command
    after the word job and a space. *)
Theorem submit_job_returns_digits (task : Task) (s : State) (ds : string) :
  fst (submit_job W task s) = Ok ds →
  ds ≠ EmptyString ∧ SubmitSpec.all_digits ds = true ∧
  ∃ p, spawn W (length (commands (trace s))) (sbatch task) = Ran p ∧
       returncode p = 0 ∧
       Str.contains ("job " +:+ ds) (stdout p) = true.
Proof.
  destruct (submit_job_run task s) as (s1 & _ & _ & ->). cbn [fst].
  unfold check_output_of.
  destruct (spawn W _ _) as [p|]; [|done].
  destruct (Z.eqb_spec (returncode p) 0) as [Hrc|]; [|done].
  destruct (re_search_job (stdout p)) as [g|] eqn:Hg; [|done].
  intros [= ->]. apply re_search_job_Some in Hg as (pre & (rest & Hout & Hat) & _).
  destruct Hat as (post & -> & Hne & Hd & _).
  split; [done |]. split; [done |]. exists p. split; [done |]. split; [done |].
  apply contains_spec. exists pre, post. by rewrite Hout, append_assoc.
Qed.

End SubmitExtras.

Lemma submit_job_passes_error_on_witness :
  check_output_of
    (spawn Scenario.rejecting (length (commands (trace Sample.initial)))
       (sbatch Sample.task7)) = Raise (CalledProcessError 1 "") ∧
  fst (submit_job Scenario.rejecting Sample.task7 Sample.initial)
  = Raise (CalledProcessError 1 "") ∧
  (CalledProcessError 1 "" = OSError ∨
   ∃ p, spawn Scenario.rejecting (length (commands (trace Sample.initial)))
          (sbatch Sample.task7) = Ran p ∧
        returncode p ≠ 0 ∧
        CalledProcessError 1 "" = CalledProcessError (returncode p) (stdout p)).
Proof.
  split; [reflexivity |].
  exact (submit_job_passes_error_on Scenario.rejecting Sample.task7 Sample.initial
           _ eq_refl).
Defined.

Lemma submit_job_returns_digits_witness :
  fst (submit_job Sample.accepting Sample.task7 Sample.initial) = Ok "4821" ∧
  "4821" ≠ EmptyString ∧ SubmitSpec.all_digits "4821" = true ∧
  ∃ p, spawn Sample.accepting (length (commands (trace Sample.initial)))
         (sbatch Sample.task7) = Ran p ∧
       returncode p = 0 ∧
       Str.contains ("job " +:+ "4821") (stdout p) = true.
Proof.
  split; [reflexivity |].
  exact (submit_job_returns_digits Sample.accepting Sample.task7 Sample.initial
           "4821" eq_refl).
Defined.

(** The old output files of task 7 are removed, the other file is
    kept. *)
Example submit_job_removes_stale_output :
  files (snd (submit_job Sample.accepting Sample.task7 Scenario.littered))
  = {[ "keep.txt" ]}.
Proof. by vm_compute. Qed.

(** ** The commands of a poll *)

Section Poll.

Variable W : World.

Lemma qacct_raw_launches (task : Task) (timeout quantum : Z) (s : State) :
  quantum ≠ 0 →
  ∃ r es k,
    runs (_qacct_raw W task timeout quantum) s r es ∧
    commands es = replicate k (scontrol task) ∧
    (k ≤ Z.to_nat (timeout / quantum))%nat.
Proof.
  intros Hq.
  destruct (qacct_loop_bound W task quantum (timeout / quantum)
              (time_time W (clock_reads (trace s))) (xrange (timeout / quantum)) None
              (extend s [EvTime])) as (r1 & es1 & k & Hrun1 & Hc1 & Hk).
  rewrite xrange_length in Hk.
  destruct r1 as [e1|e1].
  - destruct (qacct_after_loop W task (time_time W (clock_reads (trace s))) e1
                (extend (extend s [EvTime]) es1)) as (r & es2 & Hc2 & _ & Hrun2).
    exists r, ([EvTime] ++ es1 ++ es2), k. split; [|split; [|done]].
    + apply qacct_raw_enter; [done |]. by exists e1, es1, es2.
    + rewrite !commands_app. simpl. by rewrite Hc1, Hc2, app_nil_r.
  - exists (Raise e1), ([EvTime] ++ es1), k. split; [|split; [|done]].
    + by apply qacct_raw_enter_raise.
    + rewrite commands_app. by simpl.
Qed.

(** Reading the job state launches nothing: the commands of
    [_get_task_return_data] are those of the retrieval with its
    default budget, at most 40 detailed queries. *)
Lemma get_task_return_data_launches (task : Task) (s : State) :
  ∃ r es k,
    runs (_get_task_return_data W task) s r es ∧
    commands es = replicate k (scontrol task) ∧ (k ≤ 40)%nat.
Proof.
  destruct (qacct_raw_launches task 600 15 s ltac:(lia)) as (r & es & k & Hrun & Hc & Hk).
  change (Z.to_nat (600 / 15)) with 40%nat in Hk.
  unfold _get_task_return_data. destruct r as [d|e].
  - destruct (decide (default "COMPLETED" (d !! "JobState") ≠ "COMPLETED")) as [Hw|Hw].
    + eexists (Ok d), (es ++ [_] ++ []), k. split; [|split; [|done]].
      * eapply runs_bind; [exact Hrun |]. rewrite decide_True by done.
        eapply runs_bind; [apply runs_emit | apply runs_ret].
      * rewrite commands_app. simpl. by rewrite app_nil_r.
    + exists (Ok d), (es ++ [] ++ []), k. split; [|split; [|done]].
      * eapply runs_bind; [exact Hrun |]. rewrite decide_False by done.
        eapply runs_bind; apply runs_ret.
      * by rewrite !app_nil_r.
  - exists (Raise e), es, k. split; [by apply runs_bind_raise | done].
Qed.

Lemma poll_command_cons task tasks c :
  poll_command tasks c → poll_command (task :: tasks) c.
Proof.
  intros [?|(t & Hin & ?)]; [by left |]. right. exists t. split; [by right | done].
Qed.

Lemma filter_is_done_loop_launches qjobs (tasks : list Task) : ∀ s,
  ∃ r es,
    runs (filter_is_done_loop W qjobs tasks) s r es ∧
    (length (commands es) ≤ 40 * length tasks)%nat ∧
    Forall (poll_command tasks) (commands es).
Proof.
  induction tasks as [|task tasks IH]; intros s.
  - exists (Ok []), []. split; [apply runs_ret | by split].
  - cbn [filter_is_done_loop].
    destruct (is_done qjobs (unicode (drm_jobID task))) as [[|]|e].
    + destruct (get_task_return_data_launches task s)
        as (r1 & es1 & k & Hrun1 & Hc1 & Hk).
      assert (Forall (poll_command (task :: tasks)) (commands es1)) as Hall1.
      { rewrite Hc1. apply Forall_replicate. right. exists task.
        split; [by left | done]. }
      destruct r1 as [data|e].
      * destruct (IH (extend s es1)) as (r2 & es2 & Hrun2 & Hlen2 & Hall2).
        assert (Forall (poll_command (task :: tasks)) (commands es2)) as Hall2'.
        { eapply Forall_impl; [exact Hall2 |]. apply poll_command_cons. }
        destruct r2 as [rest|e].
        -- exists (Ok ((task, data) :: rest)), ([] ++ es1 ++ es2 ++ []).
           split; [|split].
           ++ eapply runs_bind; [apply runs_lift |]. rewrite extend_nil.
              eapply runs_bind; [exact Hrun1 |].
              eapply runs_bind; [exact Hrun2 | apply runs_ret].
           ++ rewrite app_nil_l, app_nil_r, commands_app, length_app, Hc1,
                length_replicate. simpl. lia.
           ++ rewrite app_nil_l, app_nil_r, commands_app. by apply Forall_app.
        -- exists (Raise e), ([] ++ es1 ++ es2). split; [|split].
           ++ eapply runs_bind; [apply runs_lift |]. rewrite extend_nil.
              eapply runs_bind; [exact Hrun1 |]. by apply runs_bind_raise.
           ++ rewrite app_nil_l, commands_app, length_app, Hc1, length_replicate.
              simpl. lia.
           ++ rewrite app_nil_l, commands_app. by apply Forall_app.
      * exists (Raise e), ([] ++ es1). split; [|split].
        -- eapply runs_bind; [apply runs_lift |]. rewrite extend_nil.
           by apply runs_bind_raise.
        -- rewrite app_nil_l, Hc1, length_replicate. simpl. lia.
        -- by rewrite app_nil_l.
    + destruct (IH s) as (r2 & es2 & Hrun2 & Hlen2 & Hall2).
      exists r2, ([] ++ es2). split; [|split].
      * eapply runs_bind; [apply runs_lift |]. by rewrite extend_nil.
      * rewrite app_nil_l. simpl. lia.
      * rewrite app_nil_l. eapply Forall_impl; [exact Hall2 |].
        apply poll_command_cons.
    + exists (Raise e), []. split; [|by split; [simpl; lia |]].
      apply runs_bind_raise, runs_lift.
Qed.

(** X18: whatever the world does, one run of the generator over
    [tasks] launches the listing at most once and the detailed query
    at most 40 times per task, and no other command: it never submits
    and never cancels. *)
Theorem filter_is_done_launches (tasks : list Task) (s : State) :
  ∃ cs,
    commands (trace (snd (filter_is_done W tasks s))) = commands (trace s) ++ cs ∧
    (length cs ≤ 1 + 40 * length tasks)%nat ∧
    Forall (poll_command tasks) cs.
Proof.
  unfold filter_is_done. destruct (decide (length tasks ≠ 0%nat)) as [Hne|Hnil].
  - destruct (qstat_all_runs W s) as (qjobs & Hq).
    destruct (filter_is_done_loop_launches (Some qjobs) tasks (extend s [EvSpawn squeue]))
      as (r & es & Hrun & Hlen & Hall).
    exists (commands (([EvSpawn squeue] ++ []) ++ es)).
    assert (runs (qjobs ← (q ← _qstat_all W; mret (Some q));
                  filter_is_done_loop W qjobs tasks) s r (([EvSpawn squeue] ++ []) ++ es))
      as Hall_run.
    { eapply runs_bind; [|rewrite app_nil_r; exact Hrun].
      eapply runs_bind; [exact Hq | apply runs_ret]. }
    unfold runs in Hall_run. rewrite Hall_run. split; [|split].
    + simpl. by rewrite commands_app.
    + rewrite commands_app, length_app. simpl. lia.
    + rewrite commands_app. apply Forall_app. split; [|done].
      simpl. constructor; [by left | done].
  - destruct tasks; [|simpl in Hnil; lia]. exists [].
    split; [by rewrite app_nil_r | by split; [simpl; lia |]].
Qed.

End Poll.

(** ** The test of the completion filter, once more *)

Lemma contains_trans a b s :
  Str.contains a b = true → Str.contains b s = true → Str.contains a s = true.
Proof.
  rewrite !contains_spec. intros (pre & post & ->) (pre' & post' & ->).
  exists (pre' +:+ pre), (post +:+ post'). by rewrite !append_assoc.
Qed.

(** X19: because the test looks for the codes inside the status, the
    codes BF, NF and PR decide nothing: a listed task with an ST field
    passes exactly when the field contains F, CA, CD, R or TO. *)
Theorem is_done_five_codes (table : gmap string (gmap string string))
    (jid : string) (row : gmap string string) (st : string) :
  table !! jid = Some row →
  row !! "ST" = Some st →
  is_done (Some table) jid
  = Ok (Str.contains "F" st || Str.contains "CA" st || Str.contains "CD" st ||
        Str.contains "R" st || Str.contains "TO" st).
Proof.
  intros Hrow Hst. unfold is_done. rewrite Hrow, Hst. f_equal.
  unfold finished_states. cbn [existsb].
  pose proof (contains_trans "F" "BF" st eq_refl) as HBF.
  pose proof (contains_trans "F" "NF" st eq_refl) as HNF.
  pose proof (contains_trans "R" "PR" st eq_refl) as HPR.
  destruct (Str.contains "F" st), (Str.contains "BF" st), (Str.contains "CA" st),
    (Str.contains "CD" st), (Str.contains "NF" st), (Str.contains "PR" st),
    (Str.contains "R" st), (Str.contains "TO" st); simpl; try done;
    first [ by specialize (HBF eq_refl) | by specialize (HNF eq_refl)
          | by specialize (HPR eq_refl) ].
Qed.

Lemma is_done_five_codes_witness :
  configuring_table !! "7" = Some {[ "JOBID" := "7"; "ST" := "CF" ]} ∧
  ({[ "JOBID" := "7"; "ST" := "CF" ]} : gmap string string) !! "ST" = Some "CF" ∧
  is_done (Some configuring_table) "7"
  = Ok (Str.contains "F" "CF" || Str.contains "CA" "CF" || Str.contains "CD" "CF" ||
        Str.contains "R" "CF" || Str.contains "TO" "CF").
Proof.
  split; [by vm_compute |]. split; [by vm_compute |].
  exact (is_done_five_codes configuring_table "7"
           {[ "JOBID" := "7"; "ST" := "CF" ]} "CF"
           ltac:(by vm_compute) ltac:(by vm_compute)).
Defined.

Lemma qacct_parse_keys_witness :
  qacct_parse Sample.task7 "A=1 extra B=2" ∅ None ["A=1"; "extra"; "B=2"]
  = Ok {[ "A" := "1 extra"; "B" := "2" ]} ∧
  dom ({[ "A" := "1 extra"; "B" := "2" ]} : gmap string string)
  = list_to_set (omap token_key ["A=1"; "extra"; "B=2"]) ∧
  set_Forall (λ k, Str.contains "=" k = false)
    (dom ({[ "A" := "1 extra"; "B" := "2" ]} : gmap string string)).
Proof.
  assert (qacct_parse Sample.task7 "A=1 extra B=2" ∅ None ["A=1"; "extra"; "B=2"]
          = Ok {[ "A" := "1 extra"; "B" := "2" ]}) as H by (by vm_compute).
  split; [exact H |].
  exact (qacct_parse_keys Sample.task7 "A=1 extra B=2" ["A=1"; "extra"; "B=2"] _ H).
Defined.
